(** * DynamoDB batch items and attributes (package dynamodb of goamz)

    A shallow embedding of the item model, the batch-write validation, the
    batch-write and get-item response decoding and [parseAttributes], together
    with the properties the specification states about them.

    Conventions of the embedding:
    - Go's [int] is the 64-bit signed integer; it is carried as a [Z] and every
      addition of the source is followed by [wrap_int].
    - A Go [string] is a sequence of bytes: [string] of Rocq, [len] its length.
    - A Go [map[string]T] is a [gmap string T].  The order in which [range]
      visits a map is not specified by the language: it is a parameter of the
      development ([MapRange]), known only to enumerate the map.
    - A slice that is only appended to and read is a [list].
    - A function that returns [(T, error)] returns [error + T]; a function that
      talks to the server runs in the monad [M], which records the calls made
      to the transport. *)

From Stdlib Require Import ZArith Lia.
From stdpp Require Import gmap strings list fin_maps pretty.

Local Open Scope string_scope.
Local Open Scope list_scope.
Local Open Scope Z_scope.

(** ** Machine integers *)

Module GoInt.

Definition int_bits : Z := 64.
Definition min_int : Z := - 2 ^ (int_bits - 1).
Definition max_int : Z := 2 ^ (int_bits - 1) - 1.

(** Two's-complement reduction of a mathematical integer to an [int]. *)
Definition wrap_int (z : Z) : Z :=
  (z - min_int) mod 2 ^ int_bits + min_int.

Definition int_add (a b : Z) : Z := wrap_int (a + b).

Definition in_int (z : Z) : Prop := min_int <= z <= max_int.

End GoInt.
Export GoInt.

(** [len] of a string and of a slice: never negative, and exact (a length is an
    [int] by construction). *)
Definition len (s : string) : Z := Z.of_nat (String.length s).
Definition len_slice {A} (l : list A) : Z := Z.of_nat (length l).

(** ** Iteration over maps *)

(** What the development knows of [for k, v := range m]: the pairs of [m], each
    once, in some order. *)
Class MapRange := {
  range : forall A : Type, gmap string A -> list (string * A);
  range_perm : forall (A : Type) (m : gmap string A), range A m ≡ₚ map_to_list m
}.
Arguments range {_ _} _.

(** One admissible order, used to run the definitions. *)
Definition range_map_to_list : MapRange :=
  {| range := fun A m => map_to_list m;
     range_perm := fun A m => reflexivity (map_to_list m) |}.

(** ** Attributes and items *)

(** Modelled from the spec: the declaration of [Attribute] and of the six type
    tags is not among the sources.  The fields are those [parseAttributes]
    fills in; the tags are the keys of the wire form (section 6 of the
    specification: S, N, B, SS, NS, BS). *)
Record Attribute := {
  Type_ : string;
  Name : string;
  Value : string;
  SetValues : list string
}.

Definition TYPE_STRING : string := "S".
Definition TYPE_NUMBER : string := "N".
Definition TYPE_BINARY : string := "B".
Definition TYPE_STRING_SET : string := "SS".
Definition TYPE_NUMBER_SET : string := "NS".
Definition TYPE_BINARY_SET : string := "BS".

#[export] Instance Attribute_eq_dec : EqDecision Attribute.
Proof. solve_decision. Defined.

Record Item := { attributes : list Attribute }.

#[export] Instance Item_eq_dec : EqDecision Item.
Proof. solve_decision. Defined.

Definition NewItem : Item := {| attributes := [] |}.

Definition AddAttribute (i : Item) (attribute : Attribute) : Item :=
  {| attributes := attributes i ++ [attribute] |}.

Definition AddAttributesFromMap `{MapRange} (i : Item) (attrs : gmap string Attribute) : Item :=
  foldl (fun i kv => AddAttribute i (snd kv)) i (range attrs).

Definition GetAttributes (i : Item) : list Attribute := attributes i.

Definition GetSize (i : Item) : Z :=
  foldl (fun size attribute => int_add size (len (Value attribute))) 0 (attributes i).

(** ** Batch write requests *)

Record BatchWriteItemOperations := {
  deleteRequest : list Item;
  putRequest : list Item
}.

Record BatchWriteItemRequest := {
  operations : gmap string BatchWriteItemOperations;
  returnConsumedCapacity : bool;
  returnItemCollecionMetrics : bool
}.

Definition NewBatchWriteItemRequest : BatchWriteItemRequest :=
  {| operations := ∅; returnConsumedCapacity := false; returnItemCollecionMetrics := false |}.

Definition GetDeleteRequest (b : BatchWriteItemOperations) : list Item := deleteRequest b.
Definition GetPutRequest (b : BatchWriteItemOperations) : list Item := putRequest b.
Definition GetOperations (b : BatchWriteItemRequest) : gmap string BatchWriteItemOperations :=
  operations b.

(** [b.operations[table]] after the [if _, ok := ...; !ok] guard. *)
Definition operations_at (b : BatchWriteItemRequest) (table : string) : BatchWriteItemOperations :=
  default {| deleteRequest := []; putRequest := [] |} (operations b !! table).

Definition AddDeleteRequest (b : BatchWriteItemRequest) (table : string) (item : Item)
  : BatchWriteItemRequest :=
  let ops := operations_at b table in
  {| operations :=
       <[table := {| deleteRequest := deleteRequest ops ++ [item];
                     putRequest := putRequest ops |}]> (operations b);
     returnConsumedCapacity := returnConsumedCapacity b;
     returnItemCollecionMetrics := returnItemCollecionMetrics b |}.

Definition AddPutRequest (b : BatchWriteItemRequest) (table : string) (item : Item)
  : BatchWriteItemRequest :=
  let ops := operations_at b table in
  {| operations :=
       <[table := {| deleteRequest := deleteRequest ops;
                     putRequest := putRequest ops ++ [item] |}]> (operations b);
     returnConsumedCapacity := returnConsumedCapacity b;
     returnItemCollecionMetrics := returnItemCollecionMetrics b |}.

(** The two inner loops append the deletions, then the puts, of one table. *)
Definition GetItems `{MapRange} (b : BatchWriteItemRequest) : list Item :=
  foldl (fun items kv =>
           let operations := snd kv in
           let items := foldl (fun items request => items ++ [request]) items
                              (GetDeleteRequest operations) in
           foldl (fun items request => items ++ [request]) items
                 (GetPutRequest operations))
        [] (range (GetOperations b)).

(** ** Decoded JSON documents *)

(** What [simplejson.NewJson] yields: [nil], [bool], a number, [string],
    [[]interface{}] or [map[string]interface{}]. *)
#[local] Set Warnings "-register-all".
Inductive json :=
| JNull
| JBool (b : bool)
| JNumber (literal : string)
| JString (s : string)
| JArray (elements : list json)
| JObject (fields : gmap string json).

(** [x.(string)], [x.([]interface{})], [x.(map[string]interface{})] on a map
    entry; a missing entry is the [nil] interface, on which every assertion
    fails. *)
Definition as_string (x : option json) : option string :=
  match x with Some (JString s) => Some s | _ => None end.
Definition as_array (x : option json) : option (list json) :=
  match x with Some (JArray l) => Some l | _ => None end.
Definition as_map (x : option json) : option (gmap string json) :=
  match x with Some (JObject m) => Some m | _ => None end.

(** ** Errors *)

(** Modelled from the spec: the declaration of [ErrNotFound] is not among the
    sources; it is the sentinel [GetItem] returns for a missing record, a value
    of its own.  [ErrExternal] stands for the errors made outside this package
    (transport, JSON decoder). *)
Inductive error :=
| errors_New (message : string)
| ErrNotFound
| ErrExternal (description : string).

#[export] Instance error_eq_dec : EqDecision error.
Proof. solve_decision. Defined.

(** The names the specification gives to the error conditions. *)
Definition TooManyItems : error := errors_New "Each request cannot contain more than 25 items".
Definition EmptyRequest : error := errors_New "The request must contain at least 1 item".
Definition ItemTooLarge : error := errors_New "The size of the item cannot exceed 64KB".
Definition RequestTooLarge : error := errors_New "The size of the request cannot exceed 1MB".

(** The operand of [fmt.Sprintf("Unexpected response %s", _)]: the raw response
    or a decoded fragment of it. *)
Inductive fragment :=
| FBytes (raw : string)
| FValue (v : json).

(** ** Collaborators *)

(** The parts of the package that are not among the sources (the query
    builder, [target], [Server.queryServer]) and the libraries it calls
    ([simplejson.NewJson], the [%s] rendering of [fmt]). *)
Class Collaborators := {
  Table : Type;
  Key : Type;
  Query : Type;
  NewEmptyQuery : Query;
  NewQuery : Table -> Query;
  AddKey : Query -> Table -> Key -> Query;
  AddBatchWriteItemOperations : Query -> BatchWriteItemRequest -> Query;
  target : string -> string;
  queryServer : Table -> string -> Query -> error + string;
  NewJson : string -> error + json;
  Sprint : fragment -> string
}.

(** simplejson: [Map], [Get] and [CheckGet] of a decoded document. *)
Definition Json_Map (j : json) : error + gmap string json :=
  match j with
  | JObject m => inr m
  | _ => inl (errors_New "type assertion to map[string]interface{} failed")
  end.

Definition Json_Get (j : json) (key : string) : json :=
  match Json_Map j with
  | inr m => match m !! key with Some val => val | None => JNull end
  | inl _ => JNull
  end.

Definition Json_CheckGet (j : json) (key : string) : option json :=
  match Json_Map j with
  | inr m => m !! key
  | inl _ => None
  end.

(** ** parseAttributes *)

(** The loop that fills [arry := make([]string, len(vals))]: slot [i] is
    written only when element [i] is a string. *)
Fixpoint fill_strings (i : nat) (vals : list json) (arry : list string) : list string :=
  match vals with
  | [] => arry
  | ivalue :: vals =>
      fill_strings (S i) vals
        match ivalue with
        | JString val => <[i := val]> arry
        | _ => arry
        end
  end.

Definition set_strings (vals : list json) : list string :=
  fill_strings 0 vals (replicate (length vals) "").

(** The body of the loop of [parseAttributes] for one entry: the attribute
    stored under [key], if any. *)
Definition parseAttribute (key : string) (value : json) : option Attribute :=
  match value with
  | JObject v =>
      match as_string (v !! TYPE_STRING) with
      | Some val => Some {| Type_ := TYPE_STRING; Name := key; Value := val; SetValues := [] |}
      | None =>
      match as_string (v !! TYPE_NUMBER) with
      | Some val => Some {| Type_ := TYPE_NUMBER; Name := key; Value := val; SetValues := [] |}
      | None =>
      match as_string (v !! TYPE_BINARY) with
      | Some val => Some {| Type_ := TYPE_BINARY; Name := key; Value := val; SetValues := [] |}
      | None =>
      match as_array (v !! TYPE_STRING_SET) with
      | Some vals =>
          Some {| Type_ := TYPE_STRING_SET; Name := key; Value := "";
                  SetValues := set_strings vals |}
      | None =>
      match as_array (v !! TYPE_NUMBER_SET) with
      | Some vals =>
          Some {| Type_ := TYPE_NUMBER_SET; Name := key; Value := "";
                  SetValues := set_strings vals |}
      | None =>
      match as_array (v !! TYPE_BINARY_SET) with
      | Some vals =>
          Some {| Type_ := TYPE_BINARY_SET; Name := key; Value := "";
                  SetValues := set_strings vals |}
      | None => None
      end end end end end end
  | _ => None
  end.

Definition parseAttributes `{MapRange} (s : gmap string json) : gmap string Attribute :=
  foldl (fun results kv =>
           match parseAttribute (fst kv) (snd kv) with
           | Some a => <[fst kv := a]> results
           | None => results
           end)
        ∅ (range s).

(** ** Calls to the server *)

Section Operations.
Context `{MapRange} `{Collaborators}.

Record Call := { call_target : string; call_query : Query }.

(** A computation that may call the server: the calls made, in order, and the
    outcome. *)
Definition M (A : Type) : Type := (list Call * (error + A))%type.

Definition M_ret {A} (a : A) : M A := ([], inr a).
Definition M_fail {A} (e : error) : M A := ([], inl e).
Definition M_bind {A B} (m : M A) (k : A -> M B) : M B :=
  match m with
  | (calls, inl e) => (calls, inl e)
  | (calls, inr a) => (calls ++ fst (k a), snd (k a))
  end.
Definition M_lift {A} (r : error + A) : M A := ([], r).

(** [t.Server.queryServer(tg, q)]. *)
Definition call_queryServer (t : Table) (tg : string) (q : Query) : M string :=
  ([{| call_target := tg; call_query := q |}], queryServer t tg q).

Notation "'let*' x ':=' m 'in' k" := (M_bind m (fun x => k))
  (at level 10, x name, m at level 100, k at level 200).

(** A [for ... range xs] loop whose body may [return nil, err]. *)
Fixpoint for_range {X S : Type} (body : S -> X -> error + S) (xs : list X) (s : S)
  : error + S :=
  match xs with
  | [] => inr s
  | x :: xs =>
      match body s x with
      | inl e => inl e
      | inr s => for_range body xs s
      end
  end.

Definition unexpected_response (f : fragment) : error :=
  errors_New ("Unexpected response " +:+ Sprint f).

(** ** GetItem *)

Definition GetItem (t : Table) (key : Key) : M (gmap string Attribute) :=
  let q := NewQuery t in
  let q := AddKey q t key in
  let* jsonResponse := call_queryServer t (target "GetItem") q in
  let* json := M_lift (NewJson jsonResponse) in
  match Json_CheckGet json "Item" with
  | None => M_fail ErrNotFound
  | Some itemJson =>
      match Json_Map itemJson with
      | inl _ => M_fail (unexpected_response (FBytes jsonResponse))
      | inr item => M_ret (parseAttributes item)
      end
  end.

(** ** BatchWriteItem *)

(** The loop over [request.GetItems()] that accumulates [totalSize]. *)
Definition size_loop (items : list Item) : error + Z :=
  for_range (fun totalSize item =>
               let size := GetSize item in
               let totalSize := int_add totalSize size in
               if 65536 <? size then inl ItemTooLarge else inr totalSize)
            items 0.

(** The loop over one [itemsArray]: one item per entry, appended to
    [tableResult[opType]]. *)
Definition parse_itemsArray (opType : string) (itemsArray : gmap string json)
    (tableResult : gmap string (list Item)) : error + gmap string (list Item) :=
  for_range (fun tableResult kv =>
               let attributesJson := snd kv in
               match attributesJson with
               | JObject attributesArray =>
                   let item := NewItem in
                   let item := AddAttributesFromMap item (parseAttributes attributesArray) in
                   inr (<[opType := default [] (tableResult !! opType) ++ [item]]> tableResult)
               | _ => inl (unexpected_response (FValue attributesJson))
               end)
            (range itemsArray) tableResult.

(** The loop over the operations of one container. *)
Definition parse_operations (operations : gmap string json)
    (tableResult : gmap string (list Item)) : error + gmap string (list Item) :=
  for_range (fun tableResult kv =>
               let opType := fst kv in
               let itemsJson := snd kv in
               match itemsJson with
               | JObject itemsArray => parse_itemsArray opType itemsArray tableResult
               | _ => inl (unexpected_response (FValue itemsJson))
               end)
            (range operations) tableResult.

(** The loop over the containers of one table. *)
Definition parse_containerArray (containerArray : list json)
    (tableResult : gmap string (list Item)) : error + gmap string (list Item) :=
  for_range (fun tableResult container =>
               match container with
               | JObject operations => parse_operations operations tableResult
               | _ => inl (unexpected_response (FValue container))
               end)
            containerArray tableResult.

(** The body of the loop over the tables, up to [results[table] = tableResult].
    When the assertion to an array fails, the message is built from
    [containerArray], which is then the nil slice. *)
Definition parse_table (containerJson : json) : error + gmap string (list Item) :=
  let tableResult : gmap string (list Item) := ∅ in
  match containerJson with
  | JArray containerArray => parse_containerArray containerArray tableResult
  | _ => inl (unexpected_response (FValue (JArray [])))
  end.

(** The loop over the tables. *)
Definition parse_tables (tables : gmap string json)
    (results : gmap string (gmap string (list Item)))
  : error + gmap string (gmap string (list Item)) :=
  for_range (fun results kv =>
               let table := fst kv in
               let containerJson := snd kv in
               match parse_table containerJson with
               | inl e => inl e
               | inr tableResult => inr (<[table := tableResult]> results)
               end)
            (range tables) results.

(** Everything after the decoding of the response. *)
Definition parse_UnprocessedItems (jsonResponse : string) (json : json)
  : error + gmap string (gmap string (list Item)) :=
  match Json_Map (Json_Get json "UnprocessedItems") with
  | inl _ => inl (unexpected_response (FBytes jsonResponse))
  | inr tables => parse_tables tables ∅
  end.

(** [request.GetItems()] is evaluated three times; only the length of the
    first two results is used. *)
Definition BatchWriteItem (t : Table) (request : BatchWriteItemRequest)
  : M (gmap string (gmap string (list Item))) :=
  if 25 <? len_slice (GetItems request) then M_fail TooManyItems
  else if len_slice (GetItems request) =? 0 then M_fail EmptyRequest
  else
    let* totalSize := M_lift (size_loop (GetItems request)) in
    if 1048576 <? totalSize then M_fail RequestTooLarge
    else
      let q := NewEmptyQuery in
      let q := AddBatchWriteItemOperations q request in
      let* jsonResponse := call_queryServer t (target "BatchWriteItem") q in
      let* json := M_lift (NewJson jsonResponse) in
      M_lift (parse_UnprocessedItems jsonResponse json).

(** The call [BatchWriteItem] makes once the request is accepted. *)
Definition BatchWriteItem_call (request : BatchWriteItemRequest) : Call :=
  {| call_target := target "BatchWriteItem";
     call_query := AddBatchWriteItemOperations NewEmptyQuery request |}.

(** What [BatchWriteItem] does with the answer of the server. *)
Definition BatchWriteItem_response (t : Table) (request : BatchWriteItemRequest)
  : error + gmap string (gmap string (list Item)) :=
  match queryServer t (target "BatchWriteItem")
                    (AddBatchWriteItemOperations NewEmptyQuery request) with
  | inl e => inl e
  | inr jsonResponse =>
      match NewJson jsonResponse with
      | inl e => inl e
      | inr json => parse_UnprocessedItems jsonResponse json
      end
  end.

End Operations.

(** ** The flags of a batch write request *)

(** The setters also log that the corresponding part of the response is not
    parsed; the log is not modelled. *)
Definition SetReturnConsumedCapacity (b : BatchWriteItemRequest) (value : bool)
  : BatchWriteItemRequest :=
  {| operations := operations b;
     returnConsumedCapacity := value;
     returnItemCollecionMetrics := returnItemCollecionMetrics b |}.

Definition SetReturnItemCollecionMetrics (b : BatchWriteItemRequest) (value : bool)
  : BatchWriteItemRequest :=
  {| operations := operations b;
     returnConsumedCapacity := returnConsumedCapacity b;
     returnItemCollecionMetrics := value |}.

Definition GetReturnConsumedCapacity (b : BatchWriteItemRequest) : bool :=
  returnConsumedCapacity b.

Definition GetReturnItemCollecionMetrics (b : BatchWriteItemRequest) : bool :=
  returnItemCollecionMetrics b.

(** ** Further collaborators *)

(** The rest of the query builder, the server of a table, and what makes a
    [*Table] usable as the key of a map: pointers can be compared and
    enumerated. *)
Class BatchCollaborators `{Collaborators} := {
  AddItem : Query -> Item -> Query;
  AddUpdates : Query -> list Attribute -> string -> Query;
  Table_eq_dec :: EqDecision Table;
  Table_countable :: Countable Table;
  AddRequestItems : Query -> gmap Table (list Key) -> Query;
  Server : Type;
  Table_Server : Table -> Server;
  Server_queryServer : Server -> string -> Query -> error + string
}.

Section ItemOperations.
Context `{MapRange} `{Collaborators} `{!BatchCollaborators}.

Notation "'let*' x ':=' m 'in' k" := (M_bind m (fun x => k))
  (at level 10, x name, m at level 100, k at level 200).

(** ** PutItem, DeleteItem and the attribute updates *)

(** These return [(bool, error)]: [(false, err)] on every error exit and
    [(true, nil)] at the end; [inl err] stands for the former and [inr true]
    for the latter. *)
Definition PutItem (t : Table) (item : Item) : M bool :=
  if len_slice (GetAttributes item) =? 0
  then M_fail (errors_New "At least one attribute is required.")
  else
    let q := NewQuery t in
    let q := AddItem q item in
    let* jsonResponse := call_queryServer t (target "PutItem") q in
    let* _json := M_lift (NewJson jsonResponse) in
    M_ret true.

Definition DeleteItem (t : Table) (key : Key) : M bool :=
  let q := NewQuery t in
  let q := AddKey q t key in
  let* jsonResponse := call_queryServer t (target "DeleteItem") q in
  let* _json := M_lift (NewJson jsonResponse) in
  M_ret true.

Definition modifyAttributes (t : Table) (key : Key) (attributes : list Attribute)
    (action : string) : M bool :=
  if len_slice attributes =? 0
  then M_fail (errors_New "At least one attribute is required.")
  else
    let q := NewQuery t in
    let q := AddKey q t key in
    let q := AddUpdates q attributes action in
    let* jsonResponse := call_queryServer t (target "UpdateItem") q in
    let* _json := M_lift (NewJson jsonResponse) in
    M_ret true.

Definition AddAttributes (t : Table) (key : Key) (attributes : list Attribute) : M bool :=
  modifyAttributes t key attributes "ADD".

Definition UpdateAttributes (t : Table) (key : Key) (attributes : list Attribute) : M bool :=
  modifyAttributes t key attributes "PUT".

Definition DeleteAttributes (t : Table) (key : Key) (attributes : list Attribute) : M bool :=
  modifyAttributes t key attributes "DELETE".

(** ** BatchGetItem *)

Record BatchGetItem := {
  BatchGetItem_Server : Server;
  Keys : gmap Table (list Key)
}.

Definition BatchGetItems (t : Table) (keys : list Key) : BatchGetItem :=
  {| BatchGetItem_Server := Table_Server t;
     Keys := <[t := keys]> ∅ |}.

(** [keys] is what the pointer given to [AddTable] points to. *)
Definition AddTable (batchGetItem : BatchGetItem) (t : Table) (keys : list Key)
  : BatchGetItem :=
  {| BatchGetItem_Server := BatchGetItem_Server batchGetItem;
     Keys := <[t := keys]> (Keys batchGetItem) |}.

(** [server.queryServer(tg, q)]. *)
Definition call_Server_queryServer (server : Server) (tg : string) (q : Query) : M string :=
  ([{| call_target := tg; call_query := q |}], Server_queryServer server tg q).

(** The loop over the entries of one table of the responses. *)
Definition parse_entries (jsonResponse : string) (jsonEntriesArray : list json)
  : error + list (gmap string Attribute) :=
  for_range (fun tableResult entry =>
               match entry with
               | JObject item =>
                   let unmarshalledItem := parseAttributes item in
                   inr (tableResult ++ [unmarshalledItem])
               | _ => inl (unexpected_response (FBytes jsonResponse))
               end)
            jsonEntriesArray [].

(** The body of the loop over the tables of the responses, up to
    [results[table] = tableResult]. *)
Definition parse_Responses_table (jsonResponse : string) (entries : json)
  : error + list (gmap string Attribute) :=
  match entries with
  | JArray jsonEntriesArray => parse_entries jsonResponse jsonEntriesArray
  | _ => inl (unexpected_response (FBytes jsonResponse))
  end.

(** The loop over the tables of the responses. *)
Definition parse_Responses (jsonResponse : string) (tables : gmap string json)
    (results : gmap string (list (gmap string Attribute)))
  : error + gmap string (list (gmap string Attribute)) :=
  for_range (fun results kv =>
               let table := fst kv in
               let entries := snd kv in
               match parse_Responses_table jsonResponse entries with
               | inl e => inl e
               | inr tableResult => inr (<[table := tableResult]> results)
               end)
            (range tables) results.

Definition Execute (batchGetItem : BatchGetItem)
  : M (gmap string (list (gmap string Attribute))) :=
  let q := NewEmptyQuery in
  let q := AddRequestItems q (Keys batchGetItem) in
  let* jsonResponse :=
    call_Server_queryServer (BatchGetItem_Server batchGetItem) (target "BatchGetItem") q in
  let* json := M_lift (NewJson jsonResponse) in
  match Json_Map (Json_Get json "Responses") with
  | inl _ => M_fail (unexpected_response (FBytes jsonResponse))
  | inr tables => M_lift (parse_Responses jsonResponse tables ∅)
  end.

End ItemOperations.

(** ** Package rds *)

(** What the package takes from outside: the signed HTTP call of the service
    ([aws.AWSService.Query]), the error it builds from a response that is not
    a success ([BuildError]), the XML decoder, which fills the response
    structure it is given and may fail, and the response structures with
    their zero values. *)
Record http_Response := { StatusCode : Z; Body : string }.

Class Service := {
  Service_Query : string -> string -> gmap string string -> error + http_Response;
  BuildError : http_Response -> error;
  xml_Decode : forall R : Type, string -> R -> R * option error;
  DescribeDBInstancesResponse : Type;
  CreateDBInstanceResponse : Type;
  DeleteDBInstanceResponse : Type;
  new_DescribeDBInstancesResponse : DescribeDBInstancesResponse;
  new_CreateDBInstanceResponse : CreateDBInstanceResponse;
  new_DeleteDBInstanceResponse : DeleteDBInstanceResponse
}.

Definition ServiceName : string := "rds".
Definition ApiVersion : string := "2013-09-09".

(** [aws.MakeParams], [strconv.Itoa] and [strconv.FormatBool]. *)
Definition MakeParams (action : string) : gmap string string := {[ "Action" := action ]}.
Definition Itoa (i : Z) : string := pretty i.
Definition FormatBool (b : bool) : string := if b then "true" else "false".

Record CreateDBInstanceOptions := {
  AllocatedStorage : Z;
  AutoMinorVersionUpgrade : bool;
  AvailabilityZone : string;
  BackupRetentionPeriod : Z;
  CharacterSetName : string;
  DBInstanceClass : string;
  DBInstanceIdentifier : string;
  DBName : string;
  DBParameterGroupName : string;
  DBSecurityGroups : list string;
  DBSubnetGroupName : string;
  Engine : string;
  EngineVersion : string;
  Iops : Z;
  LicenseModel : string;
  MasterUserPassword : string;
  MasterUsername : string;
  MultiAZ : bool;
  OptionGroupName : string;
  Port : Z;
  PreferredBackupWindow : string;
  PreferredMaintenanceWindow : string;
  PubliclyAccessible : bool;
  VpcSecurityGroupIds : list string
}.

(** [if value != "" { params[name] = value }] and
    [if value != 0 { params[name] = strconv.Itoa(value) }]. *)
Definition set_string (name value : string) (params : gmap string string)
  : gmap string string :=
  if decide (value = "") then params else <[name := value]> params.

Definition set_int (name : string) (value : Z) (params : gmap string string)
  : gmap string string :=
  if decide (value = 0) then params else <[name := Itoa value]> params.

(** [for i, g := range members { if g != "" { params[prefix+strconv.Itoa(i+1)] = g } }],
    from index [i] on. *)
Fixpoint set_members (prefix : string) (i : nat) (members : list string)
    (params : gmap string string) : gmap string string :=
  match members with
  | [] => params
  | g :: members =>
      set_members prefix (S i) members
        (if decide (g = "") then params
         else <[prefix +:+ Itoa (int_add (Z.of_nat i) 1) := g]> params)
  end.

(** The parameters the three API methods build before they call [query]. *)
Definition DescribeDBInstances_params (id : string) (maxRecords : Z) (marker : string)
  : gmap string string :=
  let params := MakeParams "DescribeDBInstances" in
  let params := set_string "DBInstanceIdentifier" id params in
  let params := set_int "MaxRecords" maxRecords params in
  set_string "Marker" marker params.

Definition CreateDBInstance_params (options : CreateDBInstanceOptions)
  : gmap string string :=
  let params := MakeParams "CreateDBInstance" in
  let params := set_int "AllocatedStorage" (AllocatedStorage options) params in
  let params :=
    <["AutoMinorVersionUpgrade" := FormatBool (AutoMinorVersionUpgrade options)]> params in
  let params := set_string "AvailabilityZone" (AvailabilityZone options) params in
  let params := set_int "BackupRetentionPeriod" (BackupRetentionPeriod options) params in
  let params := set_string "CharacterSetName" (CharacterSetName options) params in
  let params := set_string "DBInstanceClass" (DBInstanceClass options) params in
  let params := set_string "DBInstanceIdentifier" (DBInstanceIdentifier options) params in
  let params := set_string "DBName" (DBName options) params in
  let params := set_string "DBParameterGroupName" (DBParameterGroupName options) params in
  let params := set_members "DBSecurityGroups.member." 0 (DBSecurityGroups options) params in
  let params := set_string "DBSubnetGroupName" (DBSubnetGroupName options) params in
  let params := set_string "Engine" (Engine options) params in
  let params := set_string "EngineVersion" (EngineVersion options) params in
  let params := set_int "Iops" (Iops options) params in
  let params := set_string "LicenseModel" (LicenseModel options) params in
  let params := set_string "MasterUserPassword" (MasterUserPassword options) params in
  let params := set_string "MasterUsername" (MasterUsername options) params in
  let params := <["MultiAZ" := FormatBool (MultiAZ options)]> params in
  let params := set_string "OptionGroupName" (OptionGroupName options) params in
  let params := set_int "Port" (Port options) params in
  let params := set_string "PreferredBackupWindow" (PreferredBackupWindow options) params in
  let params :=
    set_string "PreferredMaintenanceWindow" (PreferredMaintenanceWindow options) params in
  let params := <["PubliclyAccessible" := FormatBool (PubliclyAccessible options)]> params in
  set_members "VpcSecurityGroupIds.member." 0 (VpcSecurityGroupIds options) params.

Definition DeleteDBInstance_params (id finalDBSnapshotIdentifier : string)
    (skipFinalSnapshot : bool) : gmap string string :=
  let params := MakeParams "DeleteDBInstance" in
  let params := <["DBInstanceIdentifier" := id]> params in
  let params := set_string "FinalDBSnapshotIdentifier" finalDBSnapshotIdentifier params in
  <["SkipFinalSnapshot" := FormatBool skipFinalSnapshot]> params.

Section RDS.
Context `{Service}.

Record ServiceCall := {
  call_method : string;
  call_path : string;
  call_params : gmap string string
}.

(** [query] returns an error or nil and fills [resp]: the calls made, the
    response structure afterwards, and the error if any.  The dump of the
    response to the log is not modelled. *)
Definition query {R : Type} (method path : string) (params : gmap string string) (resp : R)
  : list ServiceCall * (R * option error) :=
  let params := <["Version" := ApiVersion]> params in
  let calls := [{| call_method := method; call_path := path; call_params := params |}] in
  match Service_Query method path params with
  | inl err => (calls, (resp, Some err))
  | inr r =>
      if negb (StatusCode r =? 200) then (calls, (resp, Some (BuildError r)))
      else (calls, xml_Decode R (Body r) resp)
  end.

(** [DescribeDBInstances] returns [resp, err]: the response structure
    together with the error, if any. *)
Definition DescribeDBInstances (id : string) (maxRecords : Z) (marker : string)
  : list ServiceCall * (DescribeDBInstancesResponse * option error) :=
  let params := DescribeDBInstances_params id maxRecords marker in
  let resp := new_DescribeDBInstancesResponse in
  query "POST" "/" params resp.

(** [CreateDBInstance] and [DeleteDBInstance] return [nil, err] on an error
    ([inl err]) and [resp, nil] otherwise ([inr resp]).  The options are
    those of a pointer that is not nil. *)
Definition CreateDBInstance (options : CreateDBInstanceOptions)
  : list ServiceCall * (error + CreateDBInstanceResponse) :=
  let params := CreateDBInstance_params options in
  let resp := new_CreateDBInstanceResponse in
  match query "POST" "/" params resp with
  | (calls, (_, Some err)) => (calls, inl err)
  | (calls, (resp, None)) => (calls, inr resp)
  end.

Definition DeleteDBInstance (id finalDBSnapshotIdentifier : string) (skipFinalSnapshot : bool)
  : list ServiceCall * (error + DeleteDBInstanceResponse) :=
  let params := DeleteDBInstance_params id finalDBSnapshotIdentifier skipFinalSnapshot in
  let resp := new_DeleteDBInstanceResponse in
  match query "POST" "/" params resp with
  | (calls, (_, Some err)) => (calls, inl err)
  | (calls, (resp, None)) => (calls, inr resp)
  end.

End RDS.

(** * Notions of the specification *)

(** ** The items of a request and their sizes *)

Definition table_items (ops : BatchWriteItemOperations) : list Item :=
  deleteRequest ops ++ putRequest ops.

(** Every item of a request, tables in the canonical order of the map. *)
Definition all_items (b : BatchWriteItemRequest) : list Item :=
  map_to_list (operations b) ≫= (fun kv => table_items (snd kv)).

(** The total item count across all tables and both operation kinds. *)
Definition item_count (b : BatchWriteItemRequest) : nat :=
  sum_list_with (fun kv => length (deleteRequest (snd kv)) + length (putRequest (snd kv)))%nat
                (map_to_list (operations b)).

(** The sum of the computed sizes of a sequence of items. *)
Definition total_size (items : list Item) : Z :=
  foldr (fun item s => GetSize item + s) 0 items.

(** The sum of [len(Value)] over all the attributes of an item. *)
Definition value_size (i : Item) : Z :=
  foldr (fun a s => len (Value a) + s) 0 (attributes i).

Definition is_scalar (a : Attribute) : bool :=
  bool_decide (Type_ a ∈ [TYPE_STRING; TYPE_NUMBER; TYPE_BINARY]).
Definition is_set (a : Attribute) : bool :=
  bool_decide (Type_ a ∈ [TYPE_STRING_SET; TYPE_NUMBER_SET; TYPE_BINARY_SET]).

(** The sum of [len(Value)] over the scalar attributes of an item. *)
Definition scalar_size (i : Item) : Z :=
  foldr (fun a s => len (Value a) + s) 0 (filter (fun a => is_scalar a = true) (attributes i)).

(** The first violated bound: item-count lower bound, item-count upper bound,
    per-item size, aggregate size. *)
Definition first_violation (request : BatchWriteItemRequest) : option error :=
  if decide (item_count request = 0)%nat then Some EmptyRequest
  else if decide (25 < item_count request)%nat then Some TooManyItems
  else if decide (Exists (fun item => 65536 < GetSize item) (all_items request))
  then Some ItemTooLarge
  else if decide (1048576 < total_size (all_items request)) then Some RequestTooLarge
  else None.

(** The error the specification calls MalformedResponse: the message
    "Unexpected response" followed by the offending fragment. *)
Definition MalformedResponse `{Collaborators} (f : fragment) : error :=
  unexpected_response f.

(** What a wire element becomes in [SetValues]. *)
Definition string_or_empty (ivalue : json) : string :=
  match ivalue with
  | JString val => val
  | _ => ""
  end.

(** The value bound to a field of a response document, if the document is a
    mapping that has the field. *)
Definition json_field (j : json) (key : string) : option json :=
  match j with
  | JObject m => m !! key
  | _ => None
  end.

(** One unprocessed entry of a batch-write response,
    [{"<kind>": {"<field>": {attrName: wireAttr, ...}}}]. *)
Record entry := {
  entry_kind : string;
  entry_field : string;
  entry_attributes : gmap string json
}.

Definition entry_json (e : entry) : json :=
  JObject {[ entry_kind e := JObject {[ entry_field e := JObject (entry_attributes e) ]} ]}.

Definition table_json (es : list entry) : json := JArray (entry_json <$> es).

(** The item rebuilt from an entry. *)
Definition entry_item `{MapRange} (e : entry) : Item :=
  AddAttributesFromMap NewItem (parseAttributes (entry_attributes e)).

(** Appending the item of an entry to the list of its kind. *)
Definition add_entry `{MapRange} (tableResult : gmap string (list Item)) (e : entry)
  : gmap string (list Item) :=
  <[entry_kind e := default [] (tableResult !! entry_kind e) ++ [entry_item e]]> tableResult.

(** Modelled from the spec: the encoder of attributes is not among the
    sources.  Section 4.1: it "maps each of the six types to a single-key
    tagged object {typeTag: value}, where scalar types carry a single string
    and set types carry an ordered sequence of strings". *)
Definition Encode (a : Attribute) : option json :=
  if is_scalar a then Some (JObject {[ Type_ a := JString (Value a) ]})
  else if is_set a then Some (JObject {[ Type_ a := JArray (JString <$> SetValues a) ]})
  else None.

(** Decoding the wire form of one attribute: [parseAttributes] on the record
    that binds the name of the attribute to its wire form. *)
Definition Decode `{MapRange} (name : string) (wire : json) : option Attribute :=
  parseAttributes {[ name := wire ]} !! name.

(** The payload field that the type of the attribute does not use is empty. *)
Definition unused_field_empty (a : Attribute) : Prop :=
  (is_scalar a = true -> SetValues a = []) /\ (is_set a = true -> Value a = "").

(** ** The shape of the batch responses *)

(** An error is a malformed-response error when it is "Unexpected response"
    followed by some fragment. *)
Definition is_MalformedResponse `{Collaborators} (e : error) : Prop :=
  exists f, e = MalformedResponse f.

Definition is_mapping (j : json) : Prop :=
  match j with
  | JObject _ => True
  | _ => False
  end.

(** An operation of a batch-write container: a mapping whose values are
    mappings (of attributes). *)
Definition shaped_operation (itemsJson : json) : Prop :=
  match itemsJson with
  | JObject itemsArray => map_Forall (fun _ attributesJson => is_mapping attributesJson) itemsArray
  | _ => False
  end.

(** A container: a mapping of operations. *)
Definition shaped_container (container : json) : Prop :=
  match container with
  | JObject operations => map_Forall (fun _ itemsJson => shaped_operation itemsJson) operations
  | _ => False
  end.

(** The value of a table in "UnprocessedItems": a sequence of containers. *)
Definition shaped_table (containerJson : json) : Prop :=
  match containerJson with
  | JArray containerArray => Forall shaped_container containerArray
  | _ => False
  end.

Definition shaped_UnprocessedItems (tables : gmap string json) : Prop :=
  map_Forall (fun _ containerJson => shaped_table containerJson) tables.

(** The value of a table in "Responses": a sequence of mappings. *)
Definition shaped_entries (entries : json) : Prop :=
  match entries with
  | JArray jsonEntriesArray => Forall is_mapping jsonEntriesArray
  | _ => False
  end.

Definition shaped_Responses (tables : gmap string json) : Prop :=
  map_Forall (fun _ entries => shaped_entries entries) tables.

(** The value of a table in "Responses" that lists the given items. *)
Definition entries_json (items : list (gmap string json)) : json :=
  JArray (JObject <$> items).

(** ** The options of CreateDBInstance, by kind *)

(** The options sent as they are, unless empty. *)
Definition string_options (options : CreateDBInstanceOptions) : list (string * string) :=
  [ ("AvailabilityZone", AvailabilityZone options);
    ("CharacterSetName", CharacterSetName options);
    ("DBInstanceClass", DBInstanceClass options);
    ("DBInstanceIdentifier", DBInstanceIdentifier options);
    ("DBName", DBName options);
    ("DBParameterGroupName", DBParameterGroupName options);
    ("DBSubnetGroupName", DBSubnetGroupName options);
    ("Engine", Engine options);
    ("EngineVersion", EngineVersion options);
    ("LicenseModel", LicenseModel options);
    ("MasterUserPassword", MasterUserPassword options);
    ("MasterUsername", MasterUsername options);
    ("OptionGroupName", OptionGroupName options);
    ("PreferredBackupWindow", PreferredBackupWindow options);
    ("PreferredMaintenanceWindow", PreferredMaintenanceWindow options) ].

(** The options sent in decimal, unless zero. *)
Definition int_options (options : CreateDBInstanceOptions) : list (string * Z) :=
  [ ("AllocatedStorage", AllocatedStorage options);
    ("BackupRetentionPeriod", BackupRetentionPeriod options);
    ("Iops", Iops options);
    ("Port", Port options) ].

(** The options that are always sent. *)
Definition bool_options (options : CreateDBInstanceOptions) : list (string * bool) :=
  [ ("AutoMinorVersionUpgrade", AutoMinorVersionUpgrade options);
    ("MultiAZ", MultiAZ options);
    ("PubliclyAccessible", PubliclyAccessible options) ].

(** The name under which member [n] (counted from 0) of a list is sent. *)
Definition member_name (prefix : string) (n : nat) : string :=
  prefix +:+ Itoa (Z.of_nat n + 1).

(** * Sample data *)

(** A server that always gives the same answer, decoded to the same document. *)
Definition canned_server (answer : error + string) (decoded : error + json) : Collaborators :=
  {| Table := unit; Key := unit; Query := list string;
     NewEmptyQuery := [];
     NewQuery := fun _ => [];
     AddKey := fun q _ _ => q ++ ["Key"];
     AddBatchWriteItemOperations := fun q _ => q ++ ["RequestItems"];
     target := fun name => "DynamoDB_20111205." +:+ name;
     queryServer := fun _ _ _ => answer;
     NewJson := fun _ => decoded;
     Sprint := fun f => match f with FBytes raw => raw | FValue _ => "%!s" end |}.

(** A server whose answer decodes to the given document. *)
Definition answering (document : json) : Collaborators :=
  canned_server (inr "response") (inr document).

Fixpoint letters (n : nat) : string :=
  match n with
  | O => ""
  | S n => String (Ascii.ascii_of_nat 120) (letters n)
  end.

(** An item whose single string attribute is [n] bytes long. *)
Definition string_item (n : Z) : Item :=
  AddAttribute NewItem
    {| Type_ := TYPE_STRING; Name := "body"; Value := letters (Z.to_nat n); SetValues := [] |}.

(** A request that puts the given items into one table. *)
Definition put_all (table : string) (items : list Item) (b : BatchWriteItemRequest)
  : BatchWriteItemRequest :=
  foldl (fun b item => AddPutRequest b table item) b items.

Definition delete_all (table : string) (items : list Item) (b : BatchWriteItemRequest)
  : BatchWriteItemRequest :=
  foldl (fun b item => AddDeleteRequest b table item) b items.

Definition request_of (items : list Item) : BatchWriteItemRequest :=
  put_all "T" items NewBatchWriteItemRequest.

(** Thirteen puts on one table and thirteen deletions on another. *)
Definition request_26_split : BatchWriteItemRequest :=
  delete_all "B" (replicate 13 (string_item 1))
             (put_all "A" (replicate 13 (string_item 1)) NewBatchWriteItemRequest).

(** One item over the size limit among 26. *)
Definition request_26_oversized : BatchWriteItemRequest :=
  request_of (string_item 65537 :: replicate 25 (string_item 1)).

(** An item with one set-valued attribute that also carries a [Value]. *)
Definition tagged_item : Item :=
  AddAttribute NewItem
    {| Type_ := TYPE_STRING_SET; Name := "tags"; Value := "abc"; SetValues := ["x"; "y"] |}.

(** The attribute of the specification's example. *)
Definition id_attribute : Attribute :=
  {| Type_ := TYPE_NUMBER; Name := "id"; Value := "1"; SetValues := [] |}.

(** The response of the specification's example. *)
Definition one_unprocessed_put : gmap string json :=
  {[ "T" := JArray [ JObject {[ "PutRequest" :=
        JObject {[ "Item" := JObject {[ "id" := JObject {[ "N" := JString "1" ]} ]} ]} ]} ] ]}.

(** A string attribute that also carries set values. *)
Definition overfull_attribute : Attribute :=
  {| Type_ := TYPE_STRING; Name := "n"; Value := "x"; SetValues := ["y"] |}.

Definition number_set_attribute : Attribute :=
  {| Type_ := TYPE_NUMBER_SET; Name := "sizes"; Value := ""; SetValues := ["3"; "1"; "2"] |}.

Definition sizes_wire : gmap string json :=
  {[ "sizes" := JObject {[ "NS" := JArray [JString "3"; JNull; JString "1"] ]} ]}.

(** The further collaborators of a canned server: the batch server gives the
    same answer as the table server. *)
Definition canned_batch (answer : error + string) (decoded : error + json)
  : @BatchCollaborators (canned_server answer decoded) :=
  @Build_BatchCollaborators (canned_server answer decoded)
    (fun (q : list string) _ => q ++ ["Item"])
    (fun (q : list string) _ action => q ++ [action])
    unit_eq_dec unit_countable
    (fun (q : list string) _ => q ++ ["RequestItems"])
    unit (fun _ => tt) (fun _ _ _ => answer).

Definition responding (document : json) : @BatchCollaborators (answering document) :=
  canned_batch (inr "response") (inr document).

(** The response of a batch get that lists two items of one table. *)
Definition two_responses : gmap string (list (gmap string json)) :=
  {[ "T" := [ {[ "id" := JObject {[ "N" := JString "1" ]} ]};
              {[ "id" := JObject {[ "N" := JString "2" ]} ]} ] ]}.

(** An rds service that always gives the same answer and whose decoder
    leaves the response structure as it is. *)
Definition canned_service (answer : error + http_Response) : Service :=
  {| Service_Query := fun _ _ _ => answer;
     BuildError := fun r => ErrExternal (Body r);
     xml_Decode := fun R _ resp => (resp, None);
     DescribeDBInstancesResponse := unit;
     CreateDBInstanceResponse := unit;
     DeleteDBInstanceResponse := unit;
     new_DescribeDBInstancesResponse := tt;
     new_CreateDBInstanceResponse := tt;
     new_DeleteDBInstanceResponse := tt |}.

(** Options with two security groups around an empty one. *)
Definition sample_options : CreateDBInstanceOptions :=
  {| AllocatedStorage := 5; AutoMinorVersionUpgrade := true; AvailabilityZone := "";
     BackupRetentionPeriod := 0; CharacterSetName := ""; DBInstanceClass := "db.t1.micro";
     DBInstanceIdentifier := "db1"; DBName := ""; DBParameterGroupName := "";
     DBSecurityGroups := ["sg-a"; ""; "sg-c"]; DBSubnetGroupName := "";
     Engine := "mysql"; EngineVersion := ""; Iops := 0; LicenseModel := "";
     MasterUserPassword := "secret"; MasterUsername := "admin"; MultiAZ := false;
     OptionGroupName := ""; Port := 0; PreferredBackupWindow := "";
     PreferredMaintenanceWindow := ""; PubliclyAccessible := false;
     VpcSecurityGroupIds := [] |}.

(** Closing a goal on sample data by evaluation. *)
Ltac evaluated := vm_compute; first [reflexivity | exact I | discriminate].
Ltac decided := apply (bool_decide_unpack _); vm_compute; exact I.

(** * Properties *)

(** ** Machine integers *)

Lemma wrap_int_id z : in_int z -> wrap_int z = z.
Proof.
  unfold in_int, wrap_int, min_int, max_int, int_bits. intros Hz.
  rewrite Z.mod_small; lia.
Qed.

Lemma wrap_int_range z : in_int (wrap_int z).
Proof.
  unfold in_int, wrap_int, min_int, max_int, int_bits.
  pose proof (Z.mod_pos_bound (z - - 2 ^ (64 - 1)) (2 ^ 64) ltac:(lia)). lia.
Qed.

Lemma wrap_int_add_l a b : wrap_int (wrap_int a + b) = wrap_int (a + b).
Proof.
  unfold wrap_int.
  replace ((a - min_int) mod 2 ^ int_bits + min_int + b - min_int)
    with ((a - min_int) mod 2 ^ int_bits + b) by lia.
  replace (a + b - min_int) with ((a - min_int) + b) by lia.
  rewrite Zplus_mod_idemp_l. reflexivity.
Qed.

(** ** Sizes and enumeration of the items *)

Lemma len_nonneg s : 0 <= len s.
Proof. unfold len. lia. Qed.

Lemma foldl_snoc {A} (acc l : list A) :
  foldl (fun items request => items ++ [request]) acc l = acc ++ l.
Proof.
  revert acc. induction l as [|x l IH]; intros acc; simpl.
  - by rewrite app_nil_r.
  - by rewrite IH, <- app_assoc.
Qed.

Lemma GetSize_foldl acc l :
  foldl (fun size attribute => int_add size (len (Value attribute))) (wrap_int acc) l
  = wrap_int (acc + foldr (fun a s => len (Value a) + s) 0 l).
Proof.
  revert acc. induction l as [|a l IH]; intros acc; simpl.
  - by rewrite Z.add_0_r.
  - unfold int_add at 2. rewrite wrap_int_add_l, IH. f_equal. lia.
Qed.

Lemma GetSize_wrap i : GetSize i = wrap_int (value_size i).
Proof.
  unfold GetSize, value_size.
  change 0 with (wrap_int 0) at 1. by rewrite GetSize_foldl.
Qed.

Lemma value_size_nonneg i : 0 <= value_size i.
Proof.
  unfold value_size. induction (attributes i) as [|a l IH]; simpl; [lia|].
  pose proof (len_nonneg (Value a)). lia.
Qed.

Lemma GetSize_exact i : value_size i <= max_int -> GetSize i = value_size i.
Proof.
  intros Hle. rewrite GetSize_wrap. apply wrap_int_id.
  pose proof (value_size_nonneg i).
  unfold in_int, min_int, max_int, int_bits in *. lia.
Qed.

Lemma total_size_app l k : total_size (l ++ k) = total_size l + total_size k.
Proof. unfold total_size. induction l as [|x l IH]; simpl; lia. Qed.

#[export] Instance total_size_perm : Proper ((≡ₚ) ==> (=)) total_size.
Proof.
  intros l k Hp. unfold total_size.
  induction Hp as [|x l k _ IH|x y l|l k m _ IH1 _ IH2]; simpl; lia.
Qed.

Lemma total_size_upper items :
  Forall (fun item => GetSize item <= 65536) items ->
  total_size items <= 65536 * len_slice items.
Proof.
  unfold len_slice, total_size.
  induction 1 as [|x l Hx _ IH]; simpl length; simpl foldr; lia.
Qed.

Lemma total_size_lower items :
  Forall (fun item => 0 <= GetSize item) items -> 0 <= total_size items.
Proof. unfold total_size. induction 1 as [|x l Hx _ IH]; simpl; lia. Qed.

Section Validation.
Context `{MapRange} `{Collaborators}.

Lemma GetItems_acc (l : list (string * BatchWriteItemOperations)) (acc : list Item) :
  foldl (fun items kv =>
           let operations := snd kv in
           let items := foldl (fun items request => items ++ [request]) items
                              (GetDeleteRequest operations) in
           foldl (fun items request => items ++ [request]) items
                 (GetPutRequest operations))
        acc l
  = acc ++ l ≫= (fun kv => table_items (snd kv)).
Proof.
  revert acc. induction l as [|kv l IH]; intros acc; simpl.
  - by rewrite app_nil_r.
  - rewrite !foldl_snoc, IH. unfold table_items, GetDeleteRequest, GetPutRequest.
    by rewrite <- !app_assoc.
Qed.

Lemma GetItems_range b :
  GetItems b = range (operations b) ≫= (fun kv => table_items (snd kv)).
Proof. unfold GetItems. by rewrite GetItems_acc. Qed.

Lemma GetItems_perm b : GetItems b ≡ₚ all_items b.
Proof. rewrite GetItems_range. unfold all_items. by rewrite range_perm. Qed.

Lemma length_all_items b : length (all_items b) = item_count b.
Proof.
  unfold all_items, item_count.
  induction (map_to_list (operations b)) as [|kv l IH]; [done|].
  rewrite bind_cons, length_app, IH. unfold table_items. by rewrite length_app.
Qed.

Lemma len_GetItems b : len_slice (GetItems b) = Z.of_nat (item_count b).
Proof. unfold len_slice. by rewrite GetItems_perm, length_all_items. Qed.

(** The size loop fails on the first item over the limit and otherwise
    returns the accumulated total. *)
Lemma size_loop_acc items acc :
  for_range (fun totalSize item =>
               let size := GetSize item in
               let totalSize := int_add totalSize size in
               if 65536 <? size then inl ItemTooLarge else inr totalSize)
            items (wrap_int acc)
  = if decide (Exists (fun item => 65536 < GetSize item) items)
    then inl ItemTooLarge
    else inr (wrap_int (acc + total_size items)).
Proof.
  revert acc. induction items as [|x l IH]; intros acc.
  - cbn [for_range]. case_decide as He; [by apply Exists_nil in He|].
    unfold total_size. simpl. by rewrite Z.add_0_r.
  - cbn [for_range]. cbv zeta. destruct (Z.ltb_spec 65536 (GetSize x)) as [Hx|Hx].
    + rewrite decide_True by (by left). done.
    + unfold int_add. rewrite wrap_int_add_l, IH.
      destruct (decide (Exists _ l)) as [He|He].
      * rewrite decide_True by (by right). done.
      * rewrite decide_False.
        -- f_equal. f_equal. unfold total_size. simpl. lia.
        -- rewrite Exists_cons. intros [?|?]; [lia|done].
Qed.

Lemma size_loop_spec items :
  size_loop items
  = if decide (Exists (fun item => 65536 < GetSize item) items)
    then inl ItemTooLarge
    else inr (wrap_int (total_size items)).
Proof. unfold size_loop. change 0 with (wrap_int 0) at 1. apply size_loop_acc. Qed.

(** [BatchWriteItem], one case per exit of the validation. *)
Lemma BatchWriteItem_cases t request :
  BatchWriteItem t request =
    if decide (25 < item_count request)%nat then ([], inl TooManyItems)
    else if decide (item_count request = 0)%nat then ([], inl EmptyRequest)
    else if decide (Exists (fun item => 65536 < GetSize item) (all_items request))
    then ([], inl ItemTooLarge)
    else if decide (1048576 < wrap_int (total_size (all_items request)))
    then ([], inl RequestTooLarge)
    else ([BatchWriteItem_call request], BatchWriteItem_response t request).
Proof.
  unfold BatchWriteItem. rewrite len_GetItems.
  destruct (Z.ltb_spec 25 (Z.of_nat (item_count request))) as [Hgt|Hle].
  { rewrite decide_True by lia. done. }
  rewrite decide_False by lia.
  destruct (Z.eqb_spec (Z.of_nat (item_count request)) 0) as [Hz|Hnz].
  { rewrite decide_True by lia. done. }
  rewrite decide_False by lia.
  rewrite size_loop_spec.
  destruct (decide (Exists _ (GetItems request))) as [He|He].
  { rewrite decide_True by (by rewrite <- GetItems_perm). done. }
  rewrite decide_False by (by rewrite <- GetItems_perm).
  rewrite (total_size_perm _ _ (GetItems_perm request)).
  unfold M_lift, M_bind at 1. cbn [fst snd app].
  destruct (Z.ltb_spec 1048576 (wrap_int (total_size (all_items request)))) as [Hbig|Hsmall].
  { rewrite decide_True by lia. done. }
  rewrite decide_False by lia.
  unfold BatchWriteItem_response, BatchWriteItem_call, call_queryServer, M_bind, M_lift.
  destruct (queryServer _ _ _) as [e|jsonResponse]; [done|].
  cbn [fst snd]. destruct (NewJson jsonResponse) as [e|json]; [done|].
  cbn [fst snd app]. done.
Qed.

End Validation.

Section BatchWriteValidation.
Context `{MapRange} `{Collaborators}.

Lemma within_limit_total request :
  (item_count request <= 25)%nat ->
  ¬ Exists (fun item => 65536 < GetSize item) (all_items request) ->
  total_size (all_items request) <= 1638400.
Proof.
  intros Hcount Hno.
  assert (Forall (fun item => GetSize item <= 65536) (all_items request)) as Hall.
  { apply Forall_forall. intros item Hin.
    destruct (Z.le_gt_cases (GetSize item) 65536) as [|Hgt]; [done|].
    exfalso. apply Hno, Exists_exists. exists item. split; [done|lia]. }
  apply total_size_upper in Hall. unfold len_slice in Hall.
  rewrite length_all_items in Hall. lia.
Qed.

(** C1. Whenever a request violates one of the four bounds, [BatchWriteItem]
    returns the error of the first violated check in the order lower item
    count, upper item count, per-item size, aggregate size, and makes no call
    to the server.  (The source tests the upper count before the lower one;
    the two cannot fail together, so the reported error is the same.) *)
Theorem BatchWriteItem_reports_first_violation t request e :
  first_violation request = Some e ->
  BatchWriteItem t request = ([], inl e).
Proof.
  unfold first_violation. rewrite BatchWriteItem_cases. intros Hv.
  repeat case_decide; simplify_eq; try done; try lia.
  all: pose proof (within_limit_total request ltac:(lia) ltac:(done)) as Hup.
  all: rewrite wrap_int_id in * by (unfold in_int, min_int, max_int, int_bits; lia).
  all: lia.
Qed.

(** C2. More than 25 items in total, however they are split over tables and
    operation kinds, is [TooManyItems]; exactly 25 items is not, and with
    every item within the size limit and the total within the request limit
    the request is sent to the server. *)
Theorem BatchWriteItem_item_count_limit t request :
  ((25 < item_count request)%nat ->
   BatchWriteItem t request = ([], inl TooManyItems)) /\
  (item_count request = 25%nat ->
   BatchWriteItem t request <> ([], inl TooManyItems) /\
   (Forall (fun item => 0 <= GetSize item <= 65536) (all_items request) ->
    total_size (all_items request) <= 1048576 ->
    BatchWriteItem t request
    = ([BatchWriteItem_call request], BatchWriteItem_response t request))).
Proof.
  rewrite BatchWriteItem_cases. split.
  - intros Hgt. by rewrite decide_True.
  - intros Heq. rewrite decide_False by lia. rewrite decide_False by lia. split.
    + repeat case_decide; discriminate.
    + intros Hall Htot.
      rewrite decide_False.
      2:{ rewrite Exists_exists. intros (item & Hin & Hgt).
          rewrite Forall_forall in Hall. specialize (Hall item Hin). lia. }
      assert (0 <= total_size (all_items request)) as Hlow.
      { apply total_size_lower. eapply Forall_impl; [exact Hall|]. simpl. lia. }
      rewrite wrap_int_id by (unfold in_int, min_int, max_int, int_bits; lia).
      by rewrite decide_False by lia.
Qed.

(** C3 (amended). In a request of at most 25 items, an item whose computed
    size exceeds 65536 makes [BatchWriteItem] fail with [ItemTooLarge] before
    any call; when every item is at most 65536 bytes the validation never
    fails with [ItemTooLarge]. *)
Theorem BatchWriteItem_item_size_limit t request :
  (item_count request <= 25)%nat ->
  (forall item, item ∈ all_items request -> 65536 < GetSize item ->
     BatchWriteItem t request = ([], inl ItemTooLarge)) /\
  (Forall (fun item => GetSize item <= 65536) (all_items request) ->
     BatchWriteItem t request <> ([], inl ItemTooLarge)).
Proof.
  intros Hcount. rewrite BatchWriteItem_cases.
  rewrite decide_False by lia. split.
  - intros item Hin Hgt.
    rewrite decide_False.
    2:{ intros Hz. rewrite <- length_all_items in Hz.
        apply length_zero_iff_nil in Hz. rewrite Hz in Hin. by apply elem_of_nil in Hin. }
    rewrite decide_True; [done|]. apply Exists_exists. by exists item.
  - intros Hall. case_decide; [discriminate|].
    rewrite decide_False; [case_decide; discriminate|].
    rewrite Exists_exists. intros (item & Hin & Hgt).
    rewrite Forall_forall in Hall. specialize (Hall item Hin). lia.
Qed.

(** C4 (amended). In a request of at most 25 items, each within the per-item
    limit, whose computed sizes add up to more than 1048576,
    [BatchWriteItem] fails with [RequestTooLarge] before any call. *)
Theorem BatchWriteItem_request_size_limit t request :
  (item_count request <= 25)%nat ->
  Forall (fun item => GetSize item <= 65536) (all_items request) ->
  1048576 < total_size (all_items request) ->
  BatchWriteItem t request = ([], inl RequestTooLarge).
Proof.
  intros Hcount Hall Htot. rewrite BatchWriteItem_cases.
  assert (¬ Exists (fun item => 65536 < GetSize item) (all_items request)) as Hno.
  { rewrite Exists_exists. intros (item & Hin & Hgt).
    rewrite Forall_forall in Hall. specialize (Hall item Hin). lia. }
  pose proof (within_limit_total request Hcount Hno) as Hup.
  rewrite decide_False by lia.
  rewrite decide_False.
  2:{ intros Hz. rewrite <- length_all_items in Hz.
      apply length_zero_iff_nil in Hz. rewrite Hz in Htot. simpl in Htot. lia. }
  rewrite decide_False by done.
  rewrite wrap_int_id by (unfold in_int, min_int, max_int, int_bits; lia).
  by rewrite decide_True.
Qed.

End BatchWriteValidation.

(** ** The computed size of an item *)

Lemma scalar_size_value_size i :
  Forall (fun a => is_scalar a = false -> Value a = "") (attributes i) ->
  scalar_size i = value_size i.
Proof.
  unfold scalar_size, value_size.
  induction 1 as [|a l Ha _ IH]; [done|].
  destruct (is_scalar a) eqn:Hs.
  - rewrite filter_cons_True by done. simpl. by rewrite IH.
  - rewrite filter_cons_False by (by rewrite Hs). simpl.
    rewrite IH, (Ha eq_refl). done.
Qed.

Lemma value_size_Values i :
  value_size i = foldr (fun v s => len v + s) 0 (Value <$> attributes i).
Proof.
  unfold value_size. induction (attributes i) as [|a l IH]; [done|].
  rewrite fmap_cons. simpl. by rewrite IH.
Qed.

(** C5 (amended). [GetSize] is the sum of [len(Value)] over all the
    attributes of the item, of whatever type (exactly so while that sum fits
    an [int]); it is the sum over the scalar attributes when the other
    attributes have an empty [Value]; it depends on nothing but the [Value]
    fields, so [SetValues] never contribute; and it is 0 when every [Value]
    is empty. *)
Theorem GetSize_sums_every_Value (i : Item) :
  value_size i <= max_int ->
  GetSize i = value_size i /\
  (Forall (fun a => is_scalar a = false -> Value a = "") (attributes i) ->
   GetSize i = scalar_size i) /\
  (forall i', Value <$> attributes i' = Value <$> attributes i -> GetSize i' = GetSize i) /\
  (Forall (fun a => Value a = "") (attributes i) -> GetSize i = 0).
Proof.
  intros Hfit. pose proof (GetSize_exact i Hfit) as Hsize. repeat split.
  - done.
  - intros Hall. by rewrite scalar_size_value_size.
  - intros i' Hsame. rewrite !GetSize_wrap, !value_size_Values. by rewrite Hsame.
  - intros Hall. rewrite Hsize. unfold value_size.
    induction Hall as [|a l Ha _ IH]; [done|]. simpl. rewrite Ha. simpl.
    apply IH.
Qed.

(** ** Decoding of attributes *)

Lemma fill_strings_spec (vals : list json) (done_ : list string) :
  fill_strings (length done_) vals (done_ ++ replicate (length vals) "")
  = done_ ++ (string_or_empty <$> vals).
Proof.
  revert done_. induction vals as [|ivalue vals IH]; intros done_; [done|].
  cbn [fill_strings].
  assert (forall val, string_or_empty ivalue = val ->
            fill_strings (S (length done_)) vals
              (<[length done_ := val]> (done_ ++ replicate (length (ivalue :: vals)) ""))
            = done_ ++ (string_or_empty <$> ivalue :: vals)) as Hset.
  { intros val Hval. rewrite insert_app_r_alt by lia. rewrite Nat.sub_diag. simpl.
    specialize (IH (done_ ++ [val])).
    rewrite length_app, Nat.add_1_r, <- !app_assoc in IH. simpl in IH.
    by rewrite IH, Hval. }
  destruct ivalue; try (by apply Hset).
  all: specialize (Hset "" eq_refl).
  all: rewrite insert_app_r_alt in Hset by lia.
  all: rewrite Nat.sub_diag in Hset; exact Hset.
Qed.

Lemma set_strings_spec vals : set_strings vals = string_or_empty <$> vals.
Proof. unfold set_strings. apply (fill_strings_spec vals []). Qed.

Lemma parseAttribute_scalar key tag val :
  tag ∈ [TYPE_STRING; TYPE_NUMBER; TYPE_BINARY] ->
  parseAttribute key (JObject {[tag := JString val]})
  = Some {| Type_ := tag; Name := key; Value := val; SetValues := [] |}.
Proof.
  intros Htag. set_unfold in Htag. destruct Htag as [->|[->|[->|[]]]]; reflexivity.
Qed.

Lemma parseAttribute_set key tag vals :
  tag ∈ [TYPE_STRING_SET; TYPE_NUMBER_SET; TYPE_BINARY_SET] ->
  parseAttribute key (JObject {[tag := JArray vals]})
  = Some {| Type_ := tag; Name := key; Value := ""; SetValues := set_strings vals |}.
Proof.
  intros Htag. set_unfold in Htag. destruct Htag as [->|[->|[->|[]]]]; reflexivity.
Qed.

Section Decoding.
Context `{MapRange}.

Lemma range_NoDup {A} (m : gmap string A) : NoDup (range m).*1.
Proof. rewrite range_perm. apply NoDup_fst_map_to_list. Qed.

Lemma range_list_to_map {A} (m : gmap string A) : list_to_map (range m) = m.
Proof.
  rewrite <- (list_to_map_to_list m) at 2.
  apply list_to_map_proper; [apply range_NoDup|apply range_perm].
Qed.

Lemma range_empty {A} : range (∅ : gmap string A) = [].
Proof. apply Permutation_nil_r. rewrite range_perm. by rewrite map_to_list_empty. Qed.

Lemma range_singleton {A} (k : string) (x : A) : range ({[k := x]} : gmap string A) = [(k, x)].
Proof. apply Permutation_singleton_r. rewrite range_perm. by rewrite map_to_list_singleton. Qed.

Lemma parseAttributes_acc (l : list (string * json)) (acc : gmap string Attribute) key :
  NoDup l.*1 ->
  foldl (fun results kv =>
           match parseAttribute (fst kv) (snd kv) with
           | Some a => <[fst kv := a]> results
           | None => results
           end) acc l !! key
  = match (list_to_map l : gmap string json) !! key with
    | Some value =>
        match parseAttribute key value with
        | Some a => Some a
        | None => acc !! key
        end
    | None => acc !! key
    end.
Proof.
  revert acc. induction l as [|[k v] l IH]; intros acc Hnd; [done|].
  apply NoDup_cons in Hnd as [Hk Hnd]. cbn [foldl fst snd].
  rewrite IH by done. rewrite list_to_map_cons.
  destruct (decide (k = key)) as [->|Hne].
  - rewrite lookup_insert_eq.
    rewrite (not_elem_of_list_to_map_1 l key Hk).
    destruct (parseAttribute key v); [by rewrite lookup_insert_eq|done].
  - rewrite lookup_insert_ne by done.
    destruct (parseAttribute k v); [by rewrite lookup_insert_ne|done].
Qed.

(** [parseAttributes] decodes each entry on its own and drops the entries
    that match none of the six tags. *)
Lemma parseAttributes_lookup (s : gmap string json) key :
  parseAttributes s !! key = s !! key ≫= parseAttribute key.
Proof.
  unfold parseAttributes. rewrite parseAttributes_acc by apply range_NoDup.
  rewrite range_list_to_map. destruct (s !! key) as [value|]; [|done].
  simpl. by destruct (parseAttribute key value).
Qed.

Lemma parseAttributes_empty : parseAttributes ∅ = ∅.
Proof. apply map_eq. intros key. by rewrite parseAttributes_lookup, !lookup_empty. Qed.

Lemma parseAttributes_singleton key value a :
  parseAttribute key value = Some a ->
  parseAttributes {[key := value]} = {[key := a]}.
Proof.
  intros Ha. apply map_eq. intros k. rewrite parseAttributes_lookup.
  destruct (decide (key = k)) as [->|Hne].
  - rewrite !lookup_singleton_eq. done.
  - by rewrite !lookup_singleton_ne.
Qed.

(** C10. A set-typed wire attribute (tag SS, NS or BS over a sequence)
    decodes to an attribute whose [SetValues] has the length and the order of
    the wire sequence, an element that is not a string giving the empty string
    at its position. *)
Theorem parseAttributes_set_elements (s : gmap string json) key tag vals :
  tag ∈ [TYPE_STRING_SET; TYPE_NUMBER_SET; TYPE_BINARY_SET] ->
  s !! key = Some (JObject {[tag := JArray vals]}) ->
  exists a,
    parseAttributes s !! key = Some a /\
    Type_ a = tag /\ Name a = key /\
    length (SetValues a) = length vals /\
    SetValues a = string_or_empty <$> vals /\
    (forall i ivalue, vals !! i = Some ivalue ->
       SetValues a !! i = Some (match ivalue with JString val => val | _ => "" end)).
Proof.
  intros Htag Hs. rewrite parseAttributes_lookup, Hs. cbn [mbind option_bind].
  rewrite parseAttribute_set by done. eexists. split; [reflexivity|].
  cbn [Type_ Name SetValues]. rewrite set_strings_spec. repeat split.
  - by rewrite length_fmap.
  - intros i ivalue Hi. rewrite list_lookup_fmap, Hi. done.
Qed.

End Decoding.

Section Responses.
Context `{MapRange} `{Collaborators}.

Lemma Json_CheckGet_field j key : Json_CheckGet j key = json_field j key.
Proof. by destruct j. Qed.

Lemma BatchWriteItem_sent t request :
  fst (BatchWriteItem t request) <> [] ->
  BatchWriteItem t request
  = ([BatchWriteItem_call request], BatchWriteItem_response t request).
Proof. rewrite BatchWriteItem_cases. by repeat case_decide. Qed.

Lemma BatchWriteItem_decoded t request raw j :
  fst (BatchWriteItem t request) <> [] ->
  queryServer t (target "BatchWriteItem")
              (AddBatchWriteItemOperations NewEmptyQuery request) = inr raw ->
  NewJson raw = inr j ->
  BatchWriteItem t request
  = ([BatchWriteItem_call request], parse_UnprocessedItems raw j).
Proof.
  intros Hsent Hraw Hj. rewrite BatchWriteItem_sent by done.
  unfold BatchWriteItem_response. by rewrite Hraw, Hj.
Qed.

Lemma parse_UnprocessedItems_field raw j :
  parse_UnprocessedItems raw j
  = match json_field j "UnprocessedItems" with
    | Some (JObject tables) => parse_tables tables ∅
    | _ => inl (unexpected_response (FBytes raw))
    end.
Proof.
  unfold parse_UnprocessedItems, Json_Get, json_field.
  destruct j as [| | | | |m]; try done. simpl.
  destruct (m !! "UnprocessedItems") as [[]|]; done.
Qed.

(** C6. Once a response has been received and decoded: without an
    "UnprocessedItems" field, or with one that is not a mapping,
    [BatchWriteItem] fails with [MalformedResponse]; with an empty mapping it succeeds and the
    result is the empty mapping. *)
Theorem BatchWriteItem_UnprocessedItems_shape t request raw j :
  fst (BatchWriteItem t request) <> [] ->
  queryServer t (target "BatchWriteItem")
              (AddBatchWriteItemOperations NewEmptyQuery request) = inr raw ->
  NewJson raw = inr j ->
  (json_field j "UnprocessedItems" = None ->
   snd (BatchWriteItem t request) = inl (MalformedResponse (FBytes raw))) /\
  (forall v, json_field j "UnprocessedItems" = Some v -> (forall m, v <> JObject m) ->
   snd (BatchWriteItem t request) = inl (MalformedResponse (FBytes raw))) /\
  (json_field j "UnprocessedItems" = Some (JObject ∅) ->
   snd (BatchWriteItem t request) = inr ∅).
Proof.
  intros Hsent Hraw Hj. rewrite (BatchWriteItem_decoded _ _ _ _ Hsent Hraw Hj).
  unfold MalformedResponse.
  cbn [snd]. rewrite parse_UnprocessedItems_field. repeat split.
  - by intros ->.
  - intros v -> Hv. destruct v; try done. by destruct (Hv fields).
  - intros ->. unfold parse_tables. by rewrite range_empty.
Qed.

(** C8. Once a response has been received and decoded, [GetItem] fails with
    [ErrNotFound] exactly when the document has no "Item" field; when "Item"
    is bound to the empty mapping it succeeds with no attribute. *)
Theorem GetItem_NotFound t key raw j :
  queryServer t (target "GetItem") (AddKey (NewQuery t) t key) = inr raw ->
  NewJson raw = inr j ->
  (snd (GetItem t key) = inl ErrNotFound <-> json_field j "Item" = None) /\
  (json_field j "Item" = Some (JObject ∅) -> snd (GetItem t key) = inr ∅).
Proof.
  intros Hraw Hj. unfold GetItem, call_queryServer, M_bind, M_lift.
  rewrite Hraw. cbn [fst snd]. rewrite Hj. cbn [fst snd].
  rewrite Json_CheckGet_field.
  destruct (json_field j "Item") as [itemJson|] eqn:Hitem.
  - split.
    + split; [|done]. destruct itemJson; discriminate.
    + intros [= ->]. simpl. by rewrite parseAttributes_empty.
  - split; [done|discriminate].
Qed.

End Responses.

(** ** Unprocessed items *)

Section Unprocessed.
Context `{MapRange} `{Collaborators}.

Lemma parse_itemsArray_single kind field attrs tableResult :
  parse_itemsArray kind {[field := JObject attrs]} tableResult
  = inr (add_entry tableResult
           {| entry_kind := kind; entry_field := field; entry_attributes := attrs |}).
Proof. unfold parse_itemsArray. by rewrite range_singleton. Qed.

Lemma parse_operations_entry e tableResult :
  parse_operations {[entry_kind e := JObject {[entry_field e := JObject (entry_attributes e)]}]}
                   tableResult
  = inr (add_entry tableResult e).
Proof.
  unfold parse_operations. rewrite range_singleton. cbn [for_range fst snd].
  rewrite parse_itemsArray_single. by destruct e.
Qed.

Lemma parse_containerArray_entries es tableResult :
  parse_containerArray (entry_json <$> es) tableResult = inr (foldl add_entry tableResult es).
Proof.
  unfold parse_containerArray. revert tableResult.
  induction es as [|e es IH]; intros tableResult; [done|].
  rewrite fmap_cons. cbn [for_range foldl]. unfold entry_json at 1.
  rewrite parse_operations_entry. apply IH.
Qed.

Lemma parse_table_entries es : parse_table (table_json es) = inr (foldl add_entry ∅ es).
Proof. unfold parse_table, table_json. apply parse_containerArray_entries. Qed.

(** The list of a kind holds the items of the entries of that kind, in the
    order of the entries. *)
Lemma foldl_add_entry_lookup es tableResult kind :
  default [] (foldl add_entry tableResult es !! kind)
  = default [] (tableResult !! kind)
    ++ (entry_item <$> filter (fun e => entry_kind e = kind) es).
Proof.
  revert tableResult. induction es as [|e es IH]; intros tableResult.
  - simpl. by rewrite app_nil_r.
  - cbn [foldl]. rewrite IH. unfold add_entry.
    destruct (decide (entry_kind e = kind)) as [<-|Hne].
    + rewrite lookup_insert_eq, filter_cons_True by done.
      rewrite fmap_cons. simpl. by rewrite <- app_assoc.
    + rewrite lookup_insert_ne, filter_cons_False by done. done.
Qed.

Lemma parse_tables_acc (l : list (string * json))
    (results : gmap string (gmap string (list Item))) :
  NoDup l.*1 ->
  Forall (fun kv => exists tableResult, parse_table (snd kv) = inr tableResult) l ->
  exists results' : gmap string (gmap string (list Item)),
    for_range (fun results kv =>
                 let table := fst kv in
                 let containerJson := snd kv in
                 match parse_table containerJson with
                 | inl e => inl e
                 | inr tableResult => inr (<[table := tableResult]> results)
                 end) l results = inr results' /\
    forall table,
      results' !! table
      = match (list_to_map l : gmap string json) !! table with
        | Some containerJson =>
            match parse_table containerJson with
            | inr tableResult => Some tableResult
            | inl _ => None
            end
        | None => results !! table
        end.
Proof.
  revert results. induction l as [|[k cj] l IH]; intros results Hnd Hall.
  - exists results. done.
  - apply NoDup_cons in Hnd as [Hk Hnd]. apply Forall_cons in Hall as [[tr Htr] Hall].
    cbn [for_range fst snd] in *. rewrite Htr.
    destruct (IH (<[k := tr]> results) Hnd Hall) as (results' & Hrun & Hlook).
    exists results'. split; [done|]. intros table. rewrite Hlook, list_to_map_cons.
    destruct (decide (k = table)) as [->|Hne].
    + rewrite (not_elem_of_list_to_map_1 l table Hk), !lookup_insert_eq. by rewrite Htr.
    + by rewrite !lookup_insert_ne.
Qed.

Lemma parse_tables_entries (unprocessed : gmap string (list entry)) :
  parse_tables (table_json <$> unprocessed) ∅
  = inr ((fun es => foldl add_entry ∅ es) <$> unprocessed).
Proof.
  destruct (parse_tables_acc (range (table_json <$> unprocessed)) ∅)
    as (results & Hrun & Hlook).
  - apply range_NoDup.
  - apply Forall_forall. intros [table cj] Hin.
    rewrite range_perm in Hin. apply elem_of_map_to_list in Hin.
    rewrite lookup_fmap in Hin. destruct (unprocessed !! table) as [es|]; [|done].
    injection Hin as <-. eexists. apply parse_table_entries.
  - unfold parse_tables. etrans; [exact Hrun|].
    f_equal. apply map_eq. intros table.
    rewrite Hlook, range_list_to_map, !lookup_fmap.
    destruct (unprocessed !! table) as [es|]; [|done].
    cbn [fmap option_fmap option_map]. by rewrite parse_table_entries.
Qed.

Lemma entry_item_id :
  entry_item {| entry_kind := "PutRequest"; entry_field := "Item";
                entry_attributes := {[ "id" := JObject {[ "N" := JString "1" ]} ]} |}
  = {| attributes := [id_attribute] |}.
Proof.
  unfold entry_item. cbn [entry_attributes].
  rewrite (parseAttributes_singleton "id" _ id_attribute) by reflexivity.
  unfold AddAttributesFromMap. by rewrite range_singleton.
Qed.

(** C7. Once a response has been received and decoded, [BatchWriteItem]
    rebuilds one item per unprocessed entry: the result has the tables of the
    response, and under a table the list of a kind holds the items of the
    entries of that kind, in the order of the response.  In particular the
    response with the single entry [{"PutRequest": {"Item": {"id": {"N": "1"}}}}]
    under table "T" gives, for "T" and "PutRequest", exactly one item, whose
    only attribute is [id], of type Number and value "1". *)
Theorem BatchWriteItem_unprocessed_items t request raw j :
  fst (BatchWriteItem t request) <> [] ->
  queryServer t (target "BatchWriteItem")
              (AddBatchWriteItemOperations NewEmptyQuery request) = inr raw ->
  NewJson raw = inr j ->
  (forall unprocessed : gmap string (list entry),
     json_field j "UnprocessedItems" = Some (JObject (table_json <$> unprocessed)) ->
     exists results,
       snd (BatchWriteItem t request) = inr results /\
       forall table,
         match unprocessed !! table with
         | None => results !! table = None
         | Some es =>
             exists tableResult,
               results !! table = Some tableResult /\
               forall kind,
                 default [] (tableResult !! kind)
                 = entry_item <$> filter (fun e => entry_kind e = kind) es
         end) /\
  (json_field j "UnprocessedItems" = Some (JObject one_unprocessed_put) ->
   exists results tableResult,
     snd (BatchWriteItem t request) = inr results /\
     results !! "T" = Some tableResult /\
     tableResult !! "PutRequest" = Some [ {| attributes := [id_attribute] |} ]).
Proof.
  intros Hsent Hraw Hj. rewrite (BatchWriteItem_decoded _ _ _ _ Hsent Hraw Hj).
  cbn [snd]. rewrite parse_UnprocessedItems_field.
  assert (forall unprocessed : gmap string (list entry),
            json_field j "UnprocessedItems" = Some (JObject (table_json <$> unprocessed)) ->
            exists results,
              match json_field j "UnprocessedItems" with
              | Some (JObject tables) => parse_tables tables ∅
              | _ => inl (unexpected_response (FBytes raw))
              end = inr results /\
              forall table,
                match unprocessed !! table with
                | None => results !! table = None
                | Some es =>
                    exists tableResult,
                      results !! table = Some tableResult /\
                      forall kind,
                        default [] (tableResult !! kind)
                        = entry_item <$> filter (fun e => entry_kind e = kind) es
                end) as Hgeneral.
  { intros unprocessed ->. rewrite parse_tables_entries. eexists. split; [done|].
    intros table. rewrite lookup_fmap.
    destruct (unprocessed !! table) as [es|]; [|done].
    simpl. eexists. split; [done|]. intros kind.
    by rewrite foldl_add_entry_lookup, lookup_empty. }
  split; [exact Hgeneral|].
  intros Hone.
  destruct (Hgeneral
    {[ "T" := [ {| entry_kind := "PutRequest"; entry_field := "Item";
                   entry_attributes := {[ "id" := JObject {[ "N" := JString "1" ]} ]} |} ] ]})
    as (results & Hres & Hshape).
  { rewrite Hone. by rewrite map_fmap_singleton. }
  specialize (Hshape "T"). rewrite lookup_singleton_eq in Hshape.
  destruct Hshape as (tableResult & HT & Hkinds).
  exists results, tableResult. repeat split; [done..|].
  specialize (Hkinds "PutRequest").
  rewrite filter_cons_True in Hkinds by done.
  rewrite filter_nil, list_fmap_singleton, entry_item_id in Hkinds.
  destruct (tableResult !! "PutRequest") as [items|]; simpl in Hkinds;
    [by subst|discriminate].
Qed.

End Unprocessed.

Section RoundTrip.
Context `{MapRange}.

Lemma Decode_parseAttribute name wire : Decode name wire = parseAttribute name wire.
Proof.
  unfold Decode. rewrite parseAttributes_lookup, lookup_singleton_eq. done.
Qed.

Lemma string_or_empty_JString (l : list string) : string_or_empty <$> (JString <$> l) = l.
Proof. induction l as [|x l IH]; [done|]. rewrite !fmap_cons, IH. done. Qed.

(** C9 (amended). For an attribute of one of the six types whose unused
    payload field is empty, decoding its wire form gives the attribute back,
    the elements of a set in their order. *)
Theorem Decode_Encode (a : Attribute) :
  Type_ a ∈ [TYPE_STRING; TYPE_NUMBER; TYPE_BINARY;
             TYPE_STRING_SET; TYPE_NUMBER_SET; TYPE_BINARY_SET] ->
  unused_field_empty a ->
  exists wire, Encode a = Some wire /\ Decode (Name a) wire = Some a.
Proof.
  intros Htype [Hscalar Hset]. destruct a as [ty name value values].
  unfold Encode. cbn [Name Type_] in *. rewrite !elem_of_cons in Htype.
  assert (is_scalar {| Type_ := ty; Name := name; Value := value; SetValues := values |}
          = true /\ ty ∈ [TYPE_STRING; TYPE_NUMBER; TYPE_BINARY] \/
          is_scalar {| Type_ := ty; Name := name; Value := value; SetValues := values |}
          = false /\
          is_set {| Type_ := ty; Name := name; Value := value; SetValues := values |}
          = true /\ ty ∈ [TYPE_STRING_SET; TYPE_NUMBER_SET; TYPE_BINARY_SET]) as Hkind.
  { destruct Htype as [->|[->|[->|[->|[->|[->|Hnone]]]]]];
      [left..|right|right|right|by apply elem_of_nil in Hnone];
      repeat split; try reflexivity; set_solver. }
  destruct Hkind as [[Hs Htag]|(Hs & Ht & Htag)].
  - rewrite Hs. cbn [Type_ Value]. eexists. split; [reflexivity|].
    rewrite Decode_parseAttribute, parseAttribute_scalar by done.
    cbn [SetValues] in Hscalar. by rewrite (Hscalar Hs).
  - rewrite Hs, Ht. cbn [Type_ SetValues]. eexists. split; [reflexivity|].
    rewrite Decode_parseAttribute, parseAttribute_set by done.
    rewrite set_strings_spec, string_or_empty_JString.
    cbn [Value] in Hset. by rewrite (Hset Ht).
Qed.

End RoundTrip.

(** ** Instances *)

Lemma BatchWriteItem_reports_first_violation_witness :
  first_violation request_26_oversized = Some TooManyItems /\
  @BatchWriteItem range_map_to_list (answering JNull) tt request_26_oversized
  = ([], inl TooManyItems).
Proof.
  split; [evaluated|].
  apply (@BatchWriteItem_reports_first_violation range_map_to_list (answering JNull)).
  evaluated.
Defined.

Lemma BatchWriteItem_item_count_limit_witness :
  @BatchWriteItem range_map_to_list (answering JNull) tt request_26_split
  = ([], inl TooManyItems) /\
  @BatchWriteItem range_map_to_list (answering JNull) tt
                  (request_of (replicate 25 (string_item 1)))
  = ([@BatchWriteItem_call (answering JNull) (request_of (replicate 25 (string_item 1)))],
     @BatchWriteItem_response range_map_to_list (answering JNull) tt
                              (request_of (replicate 25 (string_item 1)))).
Proof.
  split.
  - apply (proj1 (@BatchWriteItem_item_count_limit range_map_to_list (answering JNull)
                    tt request_26_split)).
    apply Nat.ltb_lt. evaluated.
  - apply (proj2 (@BatchWriteItem_item_count_limit range_map_to_list (answering JNull)
                    tt (request_of (replicate 25 (string_item 1))))).
    + evaluated.
    + decided.
    + apply Z.leb_le. evaluated.
Defined.

(** C3, as stated, fails on a request of 26 items one of which is 65537 bytes
    long: the item-count check answers first. *)
Lemma BatchWriteItem_oversized_among_26 :
  string_item 65537 ∈ all_items request_26_oversized /\
  65536 < GetSize (string_item 65537) /\
  @BatchWriteItem range_map_to_list (answering JNull) tt request_26_oversized
  = ([], inl TooManyItems) /\
  TooManyItems <> ItemTooLarge.
Proof.
  split; [|split; [|split]].
  - decided.
  - apply Z.ltb_lt. evaluated.
  - evaluated.
  - discriminate.
Qed.

Lemma BatchWriteItem_item_size_limit_witness :
  (item_count (request_of [string_item 65537]) <= 25)%nat /\
  @BatchWriteItem range_map_to_list (answering JNull) tt (request_of [string_item 65537])
  = ([], inl ItemTooLarge) /\
  @BatchWriteItem range_map_to_list (answering JNull) tt (request_of [string_item 65536])
  <> ([], inl ItemTooLarge).
Proof.
  assert (item_count (request_of [string_item 65537]) <= 25)%nat as Hone
    by (apply Nat.leb_le; evaluated).
  assert (item_count (request_of [string_item 65536]) <= 25)%nat as Hfull
    by (apply Nat.leb_le; evaluated).
  split; [exact Hone|]. split.
  - apply (proj1 (@BatchWriteItem_item_size_limit range_map_to_list (answering JNull)
                    tt _ Hone) (string_item 65537)).
    + decided.
    + apply Z.ltb_lt. evaluated.
  - apply (proj2 (@BatchWriteItem_item_size_limit range_map_to_list (answering JNull)
                    tt _ Hfull)).
    decided.
Defined.

(** C4, as stated, fails on a request of 26 items of 65536 bytes each: every
    item is within the limit and the total is over 1048576, yet the
    item-count check answers first. *)
Lemma BatchWriteItem_26_full_items :
  Forall (fun item => GetSize item <= 65536)
         (all_items (request_of (replicate 26 (string_item 65536)))) /\
  1048576 < total_size (all_items (request_of (replicate 26 (string_item 65536)))) /\
  @BatchWriteItem range_map_to_list (answering JNull) tt
                  (request_of (replicate 26 (string_item 65536)))
  = ([], inl TooManyItems) /\
  TooManyItems <> RequestTooLarge.
Proof.
  split; [|split; [|split]].
  - decided.
  - apply Z.ltb_lt. evaluated.
  - evaluated.
  - discriminate.
Qed.

Lemma BatchWriteItem_request_size_limit_witness :
  (item_count (request_of (replicate 17 (string_item 65536))) <= 25)%nat /\
  1048576 < total_size (all_items (request_of (replicate 17 (string_item 65536)))) /\
  @BatchWriteItem range_map_to_list (answering JNull) tt
                  (request_of (replicate 17 (string_item 65536)))
  = ([], inl RequestTooLarge).
Proof.
  assert (item_count (request_of (replicate 17 (string_item 65536))) <= 25)%nat as Hcount
    by (apply Nat.leb_le; evaluated).
  assert (1048576 < total_size (all_items (request_of (replicate 17 (string_item 65536)))))
    as Htotal by (apply Z.ltb_lt; evaluated).
  split; [exact Hcount|]. split; [exact Htotal|].
  apply (@BatchWriteItem_request_size_limit range_map_to_list (answering JNull)
           tt _ Hcount); [|exact Htotal].
  decided.
Defined.

(** C5, as stated, fails on an item whose only attribute is set-valued and
    carries a non-empty [Value]: the size is 3, the scalar attributes add up
    to 0. *)
Lemma GetSize_counts_Value_of_set_attribute :
  GetSize tagged_item = 3 /\ scalar_size tagged_item = 0.
Proof. split; evaluated. Qed.

Lemma GetSize_sums_every_Value_witness :
  value_size tagged_item <= max_int /\ GetSize tagged_item = value_size tagged_item.
Proof.
  assert (value_size tagged_item <= max_int) as Hfit
    by (apply Z.leb_le; evaluated).
  split; [exact Hfit|]. exact (proj1 (GetSize_sums_every_Value tagged_item Hfit)).
Defined.

Lemma BatchWriteItem_UnprocessedItems_shape_witness :
  snd (@BatchWriteItem range_map_to_list
         (answering (JObject {[ "UnprocessedItems" := JString "none" ]}))
         tt (request_of [string_item 1]))
  = inl (@MalformedResponse
           (answering (JObject {[ "UnprocessedItems" := JString "none" ]}))
           (FBytes "response")) /\
  snd (@BatchWriteItem range_map_to_list
         (answering (JObject {[ "UnprocessedItems" := JObject ∅ ]}))
         tt (request_of [string_item 1]))
  = inr ∅.
Proof.
  split.
  - refine (proj1 (proj2 (@BatchWriteItem_UnprocessedItems_shape range_map_to_list
             (answering (JObject {[ "UnprocessedItems" := JString "none" ]}))
             tt (request_of [string_item 1]) "response"
             (JObject {[ "UnprocessedItems" := JString "none" ]}) _ _ _))
             (JString "none") _ _).
    + evaluated.
    + reflexivity.
    + reflexivity.
    + evaluated.
    + discriminate.
  - refine (proj2 (proj2 (@BatchWriteItem_UnprocessedItems_shape range_map_to_list
             (answering (JObject {[ "UnprocessedItems" := JObject ∅ ]}))
             tt (request_of [string_item 1]) "response"
             (JObject {[ "UnprocessedItems" := JObject ∅ ]}) _ _ _)) _).
    + evaluated.
    + reflexivity.
    + reflexivity.
    + evaluated.
Defined.

Lemma BatchWriteItem_unprocessed_items_witness :
  exists results tableResult,
    snd (@BatchWriteItem range_map_to_list
           (answering (JObject {[ "UnprocessedItems" := JObject one_unprocessed_put ]}))
           tt (request_of [string_item 1]))
    = inr results /\
    results !! "T" = Some tableResult /\
    tableResult !! "PutRequest" = Some [ {| attributes := [id_attribute] |} ].
Proof.
  refine (proj2 (@BatchWriteItem_unprocessed_items range_map_to_list
            (answering (JObject {[ "UnprocessedItems" := JObject one_unprocessed_put ]}))
            tt (request_of [string_item 1]) "response"
            (JObject {[ "UnprocessedItems" := JObject one_unprocessed_put ]}) _ _ _) _).
  - evaluated.
  - reflexivity.
  - reflexivity.
  - evaluated.
Defined.

Lemma GetItem_NotFound_witness :
  snd (@GetItem range_map_to_list (answering (JObject ∅)) tt tt) = inl ErrNotFound /\
  snd (@GetItem range_map_to_list (answering (JObject {[ "Item" := JObject ∅ ]})) tt tt)
  = inr ∅.
Proof.
  split.
  - refine (proj2 (proj1 (@GetItem_NotFound range_map_to_list (answering (JObject ∅))
             tt tt "response" (JObject ∅) _ _)) _); reflexivity.
  - refine (proj2 (@GetItem_NotFound range_map_to_list
             (answering (JObject {[ "Item" := JObject ∅ ]}))
             tt tt "response" (JObject {[ "Item" := JObject ∅ ]}) _ _) _).
    + reflexivity.
    + reflexivity.
    + evaluated.
Defined.

(** C9, as stated, fails on a string attribute that carries set values: its
    wire form is [{"S": "x"}], which decodes to an attribute without them. *)
Lemma Decode_Encode_overfull_attribute :
  Type_ overfull_attribute = TYPE_STRING /\
  exists wire,
    Encode overfull_attribute = Some wire /\
    @Decode range_map_to_list (Name overfull_attribute) wire
    = Some {| Type_ := TYPE_STRING; Name := "n"; Value := "x"; SetValues := [] |} /\
    @Decode range_map_to_list (Name overfull_attribute) wire <> Some overfull_attribute.
Proof.
  split; [reflexivity|].
  exists (JObject {[ "S" := JString "x" ]}).
  split; [reflexivity|]. split; [evaluated|].
  evaluated.
Qed.

Lemma Decode_Encode_witness :
  exists wire,
    Encode number_set_attribute = Some wire /\
    @Decode range_map_to_list (Name number_set_attribute) wire = Some number_set_attribute.
Proof.
  apply (@Decode_Encode range_map_to_list number_set_attribute).
  - decided.
  - split; [discriminate|reflexivity].
Defined.

Lemma parseAttributes_set_elements_witness :
  exists a,
    @parseAttributes range_map_to_list sizes_wire !! "sizes" = Some a /\
    Type_ a = TYPE_NUMBER_SET /\ Name a = "sizes" /\
    length (SetValues a) = 3%nat /\
    SetValues a = ["3"; ""; "1"].
Proof.
  destruct (@parseAttributes_set_elements range_map_to_list sizes_wire "sizes"
              TYPE_NUMBER_SET [JString "3"; JNull; JString "1"])
    as (a & Ha & Ht & Hn & Hl & Hv & _).
  - decided.
  - evaluated.
  - exists a. repeat split; assumption.
Defined.

(** * Further properties *)

(** ** Building a batch write request *)

Lemma table_items_put ops item :
  table_items {| deleteRequest := deleteRequest ops; putRequest := putRequest ops ++ [item] |}
  ≡ₚ item :: table_items ops.
Proof.
  unfold table_items. cbn [deleteRequest putRequest].
  rewrite app_assoc. by rewrite <- Permutation_cons_append.
Qed.

Lemma table_items_delete ops item :
  table_items {| deleteRequest := deleteRequest ops ++ [item]; putRequest := putRequest ops |}
  ≡ₚ item :: table_items ops.
Proof.
  unfold table_items. cbn [deleteRequest putRequest].
  rewrite <- app_assoc. cbn [app]. by rewrite <- Permutation_middle.
Qed.

(** Replacing the operations of one table by operations that hold one more
    item adds that item to the items of the request. *)
Lemma all_items_insert b table ops' item flag1 flag2 :
  table_items ops' ≡ₚ item :: table_items (operations_at b table) ->
  all_items {| operations := <[table := ops']> (operations b);
               returnConsumedCapacity := flag1;
               returnItemCollecionMetrics := flag2 |}
  ≡ₚ item :: all_items b.
Proof.
  intros Hops. unfold all_items, operations_at in *. cbn [operations].
  destruct (operations b !! table) as [ops|] eqn:Hlook.
  - rewrite <- (insert_delete_eq (operations b)).
    rewrite <- (insert_delete_id (operations b) table ops Hlook) at 2.
    rewrite !map_to_list_insert by apply lookup_delete_eq.
    rewrite !bind_cons. cbn [snd default] in *. by rewrite Hops.
  - rewrite map_to_list_insert by done.
    rewrite bind_cons. cbn [snd default] in *. by rewrite Hops.
Qed.

Section Builder.
Context `{MapRange}.

(** X1. Adding a put request, or a delete request, adds exactly that one
    item to the items of the request, whatever the table and whatever the
    order in which the tables are visited: the other items are kept and the
    item count grows by one. *)
Theorem GetItems_after_add b table item :
  (GetItems (AddPutRequest b table item) ≡ₚ item :: GetItems b /\
   item_count (AddPutRequest b table item) = S (item_count b)) /\
  (GetItems (AddDeleteRequest b table item) ≡ₚ item :: GetItems b /\
   item_count (AddDeleteRequest b table item) = S (item_count b)).
Proof.
  assert (all_items (AddPutRequest b table item) ≡ₚ item :: all_items b) as Hput
    by apply all_items_insert, table_items_put.
  assert (all_items (AddDeleteRequest b table item) ≡ₚ item :: all_items b) as Hdel
    by apply all_items_insert, table_items_delete.
  split; split.
  - by rewrite !GetItems_perm.
  - rewrite <- !length_all_items. by rewrite Hput.
  - by rewrite !GetItems_perm.
  - rewrite <- !length_all_items. by rewrite Hdel.
Qed.

End Builder.

Lemma operations_at_put b table item :
  operations_at (AddPutRequest b table item) table
  = {| deleteRequest := deleteRequest (operations_at b table);
       putRequest := putRequest (operations_at b table) ++ [item] |}.
Proof. unfold operations_at at 1, AddPutRequest. cbn [operations]. by rewrite lookup_insert_eq. Qed.

(** X2. Successive put requests on a table are kept in the order in which
    they were added, after the puts the table already had; the deletions of
    the table and the other tables are left as they were. *)
Theorem put_all_keeps_order table items b :
  GetPutRequest (operations_at (put_all table items b) table)
    = GetPutRequest (operations_at b table) ++ items /\
  GetDeleteRequest (operations_at (put_all table items b) table)
    = GetDeleteRequest (operations_at b table) /\
  (forall other, other <> table ->
     GetOperations (put_all table items b) !! other = GetOperations b !! other).
Proof.
  unfold put_all, GetPutRequest, GetDeleteRequest, GetOperations.
  revert b. induction items as [|item items IH]; intros b.
  - cbn [foldl]. by rewrite app_nil_r.
  - cbn [foldl]. destruct (IH (AddPutRequest b table item)) as (Hput & Hdel & Hother).
    rewrite Hput, Hdel, operations_at_put. cbn [putRequest deleteRequest].
    repeat split.
    + by rewrite <- app_assoc.
    + intros other Hne. rewrite Hother by done.
      unfold AddPutRequest. cbn [operations]. by rewrite lookup_insert_ne.
Qed.

(** X3. A put request and a delete request can be added in either order,
    on the same table or on different ones: the resulting request is the
    same. *)
Theorem AddPutRequest_AddDeleteRequest_commute b t1 i1 t2 i2 :
  AddPutRequest (AddDeleteRequest b t1 i1) t2 i2
  = AddDeleteRequest (AddPutRequest b t2 i2) t1 i1.
Proof.
  unfold AddPutRequest, AddDeleteRequest, operations_at.
  cbn [operations returnConsumedCapacity returnItemCollecionMetrics].
  f_equal. destruct (decide (t1 = t2)) as [->|Hne].
  - rewrite !lookup_insert_eq, !insert_insert_eq. done.
  - rewrite !lookup_insert_ne by done.
    by rewrite insert_insert_ne.
Qed.

(** ** The exits of BatchWriteItem *)

Section Exits.
Context `{MapRange} `{Collaborators}.

(** X4. [BatchWriteItem] answers "The request must contain at least 1 item",
    without calling the server, exactly when the request holds no item at
    all (no table, or only tables without operations). *)
Theorem BatchWriteItem_EmptyRequest_iff t request :
  BatchWriteItem t request = ([], inl EmptyRequest) <-> item_count request = 0%nat.
Proof.
  rewrite BatchWriteItem_cases. split.
  - repeat case_decide; try discriminate. done.
  - intros Hz. rewrite decide_False by lia. by rewrite decide_True.
Qed.

(** X5. [BatchWriteItem] calls the server at most once.  It makes no call
    exactly when it returns one of the four validation errors, and then the
    call log is empty; otherwise the log holds the one BatchWriteItem call
    for the request. *)
Theorem BatchWriteItem_calls t request :
  (fst (BatchWriteItem t request) = [] /\
   snd (BatchWriteItem t request)
     ∈ [inl TooManyItems; inl EmptyRequest; inl ItemTooLarge; inl RequestTooLarge]) \/
  (fst (BatchWriteItem t request) = [BatchWriteItem_call request] /\
   snd (BatchWriteItem t request) = BatchWriteItem_response t request).
Proof.
  rewrite BatchWriteItem_cases.
  repeat case_decide; cbn [fst snd]; [left..|right]; (split; [done|]);
    try done; set_solver.
Qed.

(** X6. The two flags of a request have no part in the validation: setting
    either of them leaves the items of the request as they are, and the
    request is refused (with the same error) or sent exactly as before. *)
Theorem BatchWriteItem_validation_ignores_flags t b value :
  let b1 := SetReturnConsumedCapacity b value in
  let b2 := SetReturnItemCollecionMetrics b value in
  (GetItems b1 = GetItems b /\ GetItems b2 = GetItems b) /\
  (fst (BatchWriteItem t b) = [] ->
   BatchWriteItem t b1 = BatchWriteItem t b /\ BatchWriteItem t b2 = BatchWriteItem t b) /\
  (fst (BatchWriteItem t b) <> [] ->
   fst (BatchWriteItem t b1) <> [] /\ fst (BatchWriteItem t b2) <> []).
Proof.
  cbv zeta. split; [done|].
  rewrite !BatchWriteItem_cases.
  change (item_count (SetReturnConsumedCapacity b value)) with (item_count b).
  change (item_count (SetReturnItemCollecionMetrics b value)) with (item_count b).
  change (all_items (SetReturnConsumedCapacity b value)) with (all_items b).
  change (all_items (SetReturnItemCollecionMetrics b value)) with (all_items b).
  repeat case_decide; cbn [fst]; split; try done.
Qed.

End Exits.

(** X7. Which exit [BatchWriteItem] takes does not depend on the order in
    which the maps are visited: under any two orders the call logs are the
    same, and so is the outcome whenever no call is made. *)
Theorem BatchWriteItem_validation_order_independent
    (R1 R2 : MapRange) `{Collaborators} t request :
  fst (@BatchWriteItem R1 _ t request) = fst (@BatchWriteItem R2 _ t request) /\
  (fst (@BatchWriteItem R1 _ t request) = [] ->
   @BatchWriteItem R1 _ t request = @BatchWriteItem R2 _ t request).
Proof.
  rewrite !BatchWriteItem_cases. repeat case_decide; done.
Qed.

(** ** Items *)

Lemma value_size_AddAttribute i a :
  value_size (AddAttribute i a) = value_size i + len (Value a).
Proof.
  unfold value_size, AddAttribute. cbn [attributes].
  induction (attributes i) as [|x l IH]; simpl; lia.
Qed.

(** X8. As long as the total fits an [int], adding an attribute adds the
    length of its [Value] to the computed size of the item; the size never
    shrinks, and the size of the empty item is 0. *)
Theorem GetSize_AddAttribute i a :
  value_size (AddAttribute i a) <= max_int ->
  GetSize (AddAttribute i a) = GetSize i + len (Value a) /\
  GetSize i <= GetSize (AddAttribute i a) /\
  GetSize NewItem = 0.
Proof.
  intros Hfit. pose proof (len_nonneg (Value a)) as Hlen.
  pose proof (value_size_AddAttribute i a) as Hadd.
  rewrite (GetSize_exact (AddAttribute i a)) by done.
  rewrite (GetSize_exact i) by lia.
  split; [lia|]. split; [lia|reflexivity].
Qed.

Section ItemsFromMaps.
Context `{MapRange}.

Lemma AddAttributesFromMap_acc (l : list (string * Attribute)) i :
  attributes (foldl (fun i kv => AddAttribute i (snd kv)) i l) = attributes i ++ l.*2.
Proof.
  revert i. induction l as [|kv l IH]; intros i.
  - cbn. by rewrite app_nil_r.
  - cbn [foldl]. rewrite IH. unfold AddAttribute. cbn [attributes].
    rewrite fmap_cons. by rewrite <- app_assoc.
Qed.

(** X9. [AddAttributesFromMap] keeps the attributes the item already has, in
    their order, and appends after them the attributes of the map, each one
    once, in an order that the map decides. *)
Theorem AddAttributesFromMap_appends i (attrs : gmap string Attribute) :
  exists added,
    GetAttributes (AddAttributesFromMap i attrs) = GetAttributes i ++ added /\
    added ≡ₚ (map_to_list attrs).*2 /\
    length added = size attrs.
Proof.
  exists (range attrs).*2. unfold GetAttributes, AddAttributesFromMap.
  rewrite AddAttributesFromMap_acc. split; [done|].
  split.
  - by rewrite range_perm.
  - by rewrite length_fmap, range_perm, length_map_to_list.
Qed.

End ItemsFromMaps.

(** ** What parseAttributes returns *)

Lemma parseAttribute_well_formed key value a :
  parseAttribute key value = Some a ->
  Name a = key /\
  Type_ a ∈ [TYPE_STRING; TYPE_NUMBER; TYPE_BINARY;
             TYPE_STRING_SET; TYPE_NUMBER_SET; TYPE_BINARY_SET] /\
  unused_field_empty a.
Proof.
  unfold parseAttribute. intros Ha.
  repeat case_match; try discriminate; injection Ha as <-.
  all: split; [reflexivity|]; split; [set_solver|].
  all: split; intros Hkind; first [reflexivity | discriminate Hkind].
Qed.

Section Decoded.
Context `{MapRange}.

(** X10. Every attribute that [parseAttributes] returns is stored under the
    name of a field of its input and carries that name; its type is one of
    the six tags, a scalar attribute has no set values and a set attribute
    has an empty [Value]. *)
Theorem parseAttributes_well_formed (s : gmap string json) key a :
  parseAttributes s !! key = Some a ->
  is_Some (s !! key) /\
  Name a = key /\
  Type_ a ∈ [TYPE_STRING; TYPE_NUMBER; TYPE_BINARY;
             TYPE_STRING_SET; TYPE_NUMBER_SET; TYPE_BINARY_SET] /\
  unused_field_empty a.
Proof.
  rewrite parseAttributes_lookup. intros Ha.
  destruct (s !! key) as [value|]; [|discriminate].
  split; [by eexists|]. by apply (parseAttribute_well_formed key value).
Qed.

(** X11. Decoding works field by field: binding one more field adds its
    attribute to the result when the field decodes, and removes any
    attribute of that name when it does not; in particular a field bound to
    something that is not a mapping is dropped and the other attributes are
    left as they are. *)
Theorem parseAttributes_insert (s : gmap string json) key value :
  parseAttributes (<[key := value]> s)
  = match parseAttribute key value with
    | Some a => <[key := a]> (parseAttributes s)
    | None => delete key (parseAttributes s)
    end /\
  ((forall v, value <> JObject v) ->
   parseAttributes (<[key := value]> s) = delete key (parseAttributes s)).
Proof.
  assert (parseAttributes (<[key := value]> s)
          = match parseAttribute key value with
            | Some a => <[key := a]> (parseAttributes s)
            | None => delete key (parseAttributes s)
            end) as Hinsert.
  { apply map_eq. intros k. rewrite parseAttributes_lookup.
    destruct (decide (key = k)) as [->|Hne].
    - rewrite lookup_insert_eq. cbn [mbind option_bind].
      destruct (parseAttribute k value); [by rewrite lookup_insert_eq|].
      by rewrite lookup_delete_eq.
    - rewrite lookup_insert_ne by done.
      destruct (parseAttribute key value);
        [rewrite lookup_insert_ne by done|rewrite lookup_delete_ne by done];
        by rewrite parseAttributes_lookup. }
  split; [exact Hinsert|].
  intros Hvalue. rewrite Hinsert.
  destruct value; try reflexivity. by destruct (Hvalue fields).
Qed.

End Decoded.

(** X12. The result of [parseAttributes] does not depend on the order in
    which the fields of its input are visited. *)
Theorem parseAttributes_order_independent (R1 R2 : MapRange) (s : gmap string json) :
  @parseAttributes R1 s = @parseAttributes R2 s.
Proof. apply map_eq. intros key. by rewrite !parseAttributes_lookup. Qed.

(** ** Single-item operations *)

Section SingleItem.
Context `{MapRange} `{Collaborators} `{!BatchCollaborators}.

(** X13. [GetItem] calls the server exactly once, with the target "GetItem"
    and the query built from the key, whatever comes back; an error of the
    transport, or of the JSON decoder, is returned as it is. *)
Theorem GetItem_calls_once t key :
  fst (GetItem t key)
  = [{| call_target := target "GetItem"; call_query := AddKey (NewQuery t) t key |}] /\
  (forall e, queryServer t (target "GetItem") (AddKey (NewQuery t) t key) = inl e ->
     snd (GetItem t key) = inl e) /\
  (forall raw e, queryServer t (target "GetItem") (AddKey (NewQuery t) t key) = inr raw ->
     NewJson raw = inl e ->
     snd (GetItem t key) = inl e).
Proof.
  split; [|split].
  - unfold GetItem, call_queryServer, M_bind, M_lift.
    destruct (queryServer _ _ _) as [e|raw]; [done|].
    cbn [fst snd]. destruct (NewJson raw) as [e|j]; [done|].
    cbn [fst snd]. destruct (Json_CheckGet j "Item") as [itemJson|]; [|done].
    by destruct (Json_Map itemJson).
  - intros e He. unfold GetItem, call_queryServer, M_bind, M_lift. by rewrite He.
  - intros raw e Hraw Hj. unfold GetItem, call_queryServer, M_bind, M_lift.
    rewrite Hraw. cbn [fst snd]. by rewrite Hj.
Qed.

(** X14. Once a response has been received and decoded: when "Item" is
    bound to a mapping, [GetItem] returns the attributes decoded from that
    mapping; when it is bound to anything else (null, a string, a sequence)
    the error is the malformed-response error carrying the raw response, not
    [ErrNotFound]. *)
Theorem GetItem_Item_field t key raw j :
  queryServer t (target "GetItem") (AddKey (NewQuery t) t key) = inr raw ->
  NewJson raw = inr j ->
  (forall item, json_field j "Item" = Some (JObject item) ->
     snd (GetItem t key) = inr (parseAttributes item)) /\
  (forall v, json_field j "Item" = Some v -> (forall item, v <> JObject item) ->
     snd (GetItem t key) = inl (MalformedResponse (FBytes raw))).
Proof.
  intros Hraw Hj. unfold GetItem, call_queryServer, M_bind, M_lift, MalformedResponse.
  rewrite Hraw. cbn [fst snd]. rewrite Hj. cbn [fst snd].
  rewrite Json_CheckGet_field. split.
  - by intros item ->.
  - intros v -> Hv. destruct v; try done. by destruct (Hv fields).
Qed.

(** X15. [PutItem] refuses an item without attributes ("At least one
    attribute is required.") before any call.  For any other item it calls
    the server exactly once, with the target "PutItem" and the query that
    carries the item, and answers [true] exactly when the transport answers
    and the answer decodes, whatever the answer holds. *)
Theorem PutItem_outcome t item :
  (GetAttributes item = [] ->
   PutItem t item = ([], inl (errors_New "At least one attribute is required."))) /\
  (GetAttributes item <> [] ->
   fst (PutItem t item)
   = [{| call_target := target "PutItem"; call_query := AddItem (NewQuery t) item |}] /\
   (snd (PutItem t item) = inr true <->
    exists raw j, queryServer t (target "PutItem") (AddItem (NewQuery t) item) = inr raw /\
                  NewJson raw = inr j)).
Proof.
  unfold PutItem, len_slice. split.
  - intros ->. reflexivity.
  - intros Hne. destruct (GetAttributes item) as [|a l]; [done|].
    cbn [length]. destruct (Z.eqb_spec (Z.of_nat (S (length l))) 0) as [Hz|_]; [lia|].
    unfold call_queryServer, M_bind, M_lift.
    destruct (queryServer t (target "PutItem") (AddItem (NewQuery t) item)) as [e|raw].
    { cbn [fst snd]. split; [done|]. split; [discriminate|]. by intros (? & ? & ? & ?). }
    cbn [fst snd]. destruct (NewJson raw) as [e|j] eqn:Hj; cbn [fst snd app M_ret].
    + split; [done|]. split; [discriminate|].
      intros (raw' & j' & [= <-] & Hj'). congruence.
    + split; [done|]. split; [by exists raw, j|done].
Qed.

(** X16. [DeleteItem] checks nothing before calling: it calls the server
    exactly once, with the target "DeleteItem" and the query built from the
    key, and answers [true] exactly when the transport answers and the answer
    decodes. *)
Theorem DeleteItem_outcome t key :
  fst (DeleteItem t key)
  = [{| call_target := target "DeleteItem"; call_query := AddKey (NewQuery t) t key |}] /\
  (snd (DeleteItem t key) = inr true <->
   exists raw j, queryServer t (target "DeleteItem") (AddKey (NewQuery t) t key) = inr raw /\
                 NewJson raw = inr j).
Proof.
  unfold DeleteItem, call_queryServer, M_bind, M_lift.
  destruct (queryServer t (target "DeleteItem") (AddKey (NewQuery t) t key)) as [e|raw].
  { cbn [fst snd]. split; [done|]. split; [discriminate|]. by intros (? & ? & ? & ?). }
  cbn [fst snd]. destruct (NewJson raw) as [e|j] eqn:Hj; cbn [fst snd app M_ret].
  - split; [done|]. split; [discriminate|].
    intros (raw' & j' & [= <-] & Hj'). congruence.
  - split; [done|]. split; [by exists raw, j|done].
Qed.

(** X17. [AddAttributes], [UpdateAttributes] and [DeleteAttributes] refuse an
    empty list of attributes ("At least one attribute is required.") before
    any call.  With a non-empty list each calls the server exactly once, with
    the target "UpdateItem" and a query that carries the key and the
    attributes under the action "ADD", "PUT" and "DELETE" respectively. *)
Theorem attribute_updates_outcome t key attrs :
  (attrs = [] ->
   AddAttributes t key attrs = ([], inl (errors_New "At least one attribute is required.")) /\
   UpdateAttributes t key attrs = ([], inl (errors_New "At least one attribute is required.")) /\
   DeleteAttributes t key attrs = ([], inl (errors_New "At least one attribute is required."))) /\
  (attrs <> [] ->
   let update action :=
     [{| call_target := target "UpdateItem";
         call_query := AddUpdates (AddKey (NewQuery t) t key) attrs action |}] in
   fst (AddAttributes t key attrs) = update "ADD" /\
   fst (UpdateAttributes t key attrs) = update "PUT" /\
   fst (DeleteAttributes t key attrs) = update "DELETE").
Proof.
  unfold AddAttributes, UpdateAttributes, DeleteAttributes, modifyAttributes, len_slice.
  split.
  - intros ->. done.
  - intros Hne. destruct attrs as [|a l]; [done|].
    cbn [length]. destruct (Z.eqb_spec (Z.of_nat (S (length l))) 0) as [Hz|_]; [lia|].
    cbv zeta. unfold call_queryServer, M_bind, M_lift.
    repeat split.
    all: destruct (queryServer _ _ _) as [e|raw]; [done|].
    all: cbn [fst snd]; by destruct (NewJson raw).
Qed.

End SingleItem.

(** ** Loops that may fail *)

Lemma for_range_succeeds_iff {X S : Type} (body : S -> X -> error + S) (ok : X -> Prop)
    (l : list X) (s : S) :
  (forall s x, x ∈ l -> ok x -> exists s', body s x = inr s') ->
  (forall s x s', x ∈ l -> body s x = inr s' -> ok x) ->
  (exists s', for_range body l s = inr s') <-> Forall ok l.
Proof.
  revert s. induction l as [|x l IH]; intros s Hok Hinv.
  - split; [constructor|]. intros _. by exists s.
  - cbn [for_range]. split.
    + intros [s' Hrun]. destruct (body s x) as [e|s1] eqn:Hx; [discriminate|].
      constructor.
      * apply (Hinv s x s1); [left|done].
      * apply (IH s1); [| |by exists s'].
        -- intros s0 y Hy. apply Hok. by right.
        -- intros s0 y s0' Hy. apply Hinv. by right.
    + intros Hall. apply Forall_cons in Hall as [Hx Hall].
      destruct (Hok s x ltac:(left) Hx) as [s1 ->].
      apply IH; [| |done].
      * intros s0 y Hy. apply Hok. by right.
      * intros s0 y s0' Hy. apply Hinv. by right.
Qed.

Lemma for_range_error_kind {X S : Type} (body : S -> X -> error + S) (P : error -> Prop)
    (l : list X) (s : S) e :
  (forall s x e, x ∈ l -> body s x = inl e -> P e) ->
  for_range body l s = inl e -> P e.
Proof.
  revert s. induction l as [|x l IH]; intros s Hbody; [discriminate|].
  cbn [for_range]. destruct (body s x) as [e'|s1] eqn:Hx.
  - intros [= <-]. apply (Hbody s x); [left|done].
  - apply IH. intros s0 y e0 Hy. apply Hbody. by right.
Qed.

Section RangeShapes.
Context `{MapRange}.

Lemma Forall_range {A} (P : A -> Prop) (m : gmap string A) :
  Forall (fun kv => P (snd kv)) (range m) <-> map_Forall (fun _ x => P x) m.
Proof.
  rewrite range_perm, map_Forall_to_list.
  apply Forall_proper; [|done]. by intros [k x].
Qed.

Lemma elem_of_range {A} (m : gmap string A) k x : (k, x) ∈ range m <-> m !! k = Some x.
Proof. rewrite range_perm. apply elem_of_map_to_list. Qed.

End RangeShapes.

(** ** The shape BatchWriteItem accepts *)

Section WriteShapes.
Context `{MapRange} `{Collaborators}.

Lemma parse_itemsArray_shape opType itemsArray tableResult :
  (exists tableResult', parse_itemsArray opType itemsArray tableResult = inr tableResult')
  <-> map_Forall (fun _ attributesJson => is_mapping attributesJson) itemsArray.
Proof.
  unfold parse_itemsArray. rewrite <- (Forall_range is_mapping).
  apply for_range_succeeds_iff.
  - intros s [k v] _ Hok. cbn in *. destruct v; try done. by eexists.
  - intros s [k v] s' _ Hrun. cbn in *. by destruct v.
Qed.

Lemma parse_operations_shape operations tableResult :
  (exists tableResult', parse_operations operations tableResult = inr tableResult')
  <-> map_Forall (fun _ itemsJson => shaped_operation itemsJson) operations.
Proof.
  unfold parse_operations. rewrite <- (Forall_range shaped_operation).
  apply for_range_succeeds_iff.
  - intros s [k v] _ Hok. cbn [fst snd] in *. destruct v; try done.
    by apply parse_itemsArray_shape.
  - intros s [k v] s' _ Hrun. cbn [fst snd] in *. destruct v; try done.
    apply (parse_itemsArray_shape k fields s). by exists s'.
Qed.

Lemma parse_containerArray_shape containerArray tableResult :
  (exists tableResult', parse_containerArray containerArray tableResult = inr tableResult')
  <-> Forall shaped_container containerArray.
Proof.
  unfold parse_containerArray. apply for_range_succeeds_iff.
  - intros s c _ Hok. destruct c; try done. by apply parse_operations_shape.
  - intros s c s' _ Hrun. destruct c; try done.
    apply (parse_operations_shape fields s). by exists s'.
Qed.

Lemma parse_table_shape containerJson :
  (exists tableResult, parse_table containerJson = inr tableResult)
  <-> shaped_table containerJson.
Proof.
  unfold parse_table. destruct containerJson; try (split; [by intros [? ?]|done]).
  apply parse_containerArray_shape.
Qed.

Lemma parse_tables_shape tables results :
  (exists results', parse_tables tables results = inr results')
  <-> shaped_UnprocessedItems tables.
Proof.
  unfold parse_tables, shaped_UnprocessedItems. rewrite <- (Forall_range shaped_table).
  apply for_range_succeeds_iff.
  - intros s [k v] _ Hok. cbn [fst snd] in *.
    apply parse_table_shape in Hok as [tr ->]. by eexists.
  - intros s [k v] s' _ Hrun. cbn [fst snd] in *.
    apply parse_table_shape. destruct (parse_table v); [done|by eexists].
Qed.

Lemma unexpected_is_MalformedResponse f : is_MalformedResponse (unexpected_response f).
Proof. by exists f. Qed.

Lemma parse_tables_error tables results e :
  parse_tables tables results = inl e -> is_MalformedResponse e.
Proof.
  unfold parse_tables. apply (for_range_error_kind _ is_MalformedResponse). clear.
  intros s [k v] e _. cbn [fst snd]. unfold parse_table.
  destruct v; try (intros [= <-]; apply unexpected_is_MalformedResponse).
  destruct (parse_containerArray elements ∅) as [e'|tr] eqn:Hc; [|done].
  intros [= <-]. revert Hc. unfold parse_containerArray.
  apply (for_range_error_kind _ is_MalformedResponse). clear.
  intros s c e _. destruct c; try (intros [= <-]; apply unexpected_is_MalformedResponse).
  unfold parse_operations. apply (for_range_error_kind _ is_MalformedResponse). clear.
  intros s [k v] e _. cbn [fst snd].
  destruct v; try (intros [= <-]; apply unexpected_is_MalformedResponse).
  unfold parse_itemsArray. apply (for_range_error_kind _ is_MalformedResponse). clear.
  intros s [k' v] e _. cbn [fst snd].
  destruct v; intros [= <-]; apply unexpected_is_MalformedResponse.
Qed.

(** X18. Once a response has been received and decoded, [BatchWriteItem]
    succeeds exactly when "UnprocessedItems" is a mapping from tables to
    sequences of mappings (the containers) whose values (the operations) are
    mappings whose values (the attribute sets) are mappings; a deviation at
    any of these levels fails the whole call, and the error is then always a
    malformed-response error ("Unexpected response ..."). *)
Theorem BatchWriteItem_response_shape t request raw j :
  fst (BatchWriteItem t request) <> [] ->
  queryServer t (target "BatchWriteItem")
              (AddBatchWriteItemOperations NewEmptyQuery request) = inr raw ->
  NewJson raw = inr j ->
  ((exists results, snd (BatchWriteItem t request) = inr results) <->
   (exists tables, json_field j "UnprocessedItems" = Some (JObject tables) /\
                   shaped_UnprocessedItems tables)) /\
  (forall e, snd (BatchWriteItem t request) = inl e -> is_MalformedResponse e).
Proof.
  intros Hsent Hraw Hj. rewrite (BatchWriteItem_decoded _ _ _ _ Hsent Hraw Hj).
  cbn [snd]. rewrite parse_UnprocessedItems_field.
  destruct (json_field j "UnprocessedItems") as [[| | | | |tables]|].
  1-5,7: split; [split; [by intros [? ?]|by intros (? & ? & ?)]|];
         intros e [= <-]; apply unexpected_is_MalformedResponse.
  split.
  - rewrite parse_tables_shape. split.
    + intros Hshape. by exists tables.
    + by intros (tables' & [= <-] & Hshape).
  - apply parse_tables_error.
Qed.

Lemma parse_tables_lookup (l : list (string * json))
    (results results' : gmap string (gmap string (list Item))) :
  NoDup l.*1 ->
  for_range (fun results kv =>
               let table := fst kv in
               let containerJson := snd kv in
               match parse_table containerJson with
               | inl e => inl e
               | inr tableResult => inr (<[table := tableResult]> results)
               end) l results = inr results' ->
  forall table,
    results' !! table
    = match (list_to_map l : gmap string json) !! table with
      | Some containerJson =>
          match parse_table containerJson with
          | inr tableResult => Some tableResult
          | inl _ => None
          end
      | None => results !! table
      end /\
    (forall containerJson, (list_to_map l : gmap string json) !! table = Some containerJson ->
       exists tableResult, parse_table containerJson = inr tableResult).
Proof.
  revert results. induction l as [|[k cj] l IH]; intros results Hnd Hrun table.
  - injection Hrun as <-. rewrite list_to_map_nil, lookup_empty. split; [done|]. by intros cj.
  - apply NoDup_cons in Hnd as [Hk Hnd]. cbn [for_range fst snd] in Hrun.
    destruct (parse_table cj) as [e|tr] eqn:Htr; [discriminate|].
    destruct (IH _ Hnd Hrun table) as [Hlook Hsome].
    rewrite Hlook, list_to_map_cons.
    destruct (decide (k = table)) as [->|Hne].
    + rewrite (not_elem_of_list_to_map_1 l table Hk), !lookup_insert_eq, Htr.
      split; [done|]. intros cj' [= <-]. by exists tr.
    + rewrite !lookup_insert_ne by done. done.
Qed.

(** X19. When [BatchWriteItem] succeeds, its result has exactly the tables
    of "UnprocessedItems"; a table bound to the empty sequence is present in
    the result, with no kind under it. *)
Theorem BatchWriteItem_result_tables t request raw j tables results :
  fst (BatchWriteItem t request) <> [] ->
  queryServer t (target "BatchWriteItem")
              (AddBatchWriteItemOperations NewEmptyQuery request) = inr raw ->
  NewJson raw = inr j ->
  json_field j "UnprocessedItems" = Some (JObject tables) ->
  snd (BatchWriteItem t request) = inr results ->
  (forall table, is_Some (results !! table) <-> is_Some (tables !! table)) /\
  (forall table, tables !! table = Some (JArray []) -> results !! table = Some ∅).
Proof.
  intros Hsent Hraw Hj Hfield. rewrite (BatchWriteItem_decoded _ _ _ _ Hsent Hraw Hj).
  cbn [snd]. rewrite parse_UnprocessedItems_field, Hfield. unfold parse_tables.
  intros Hrun.
  pose proof (parse_tables_lookup _ _ _ (range_NoDup tables) Hrun) as Hlook.
  rewrite range_list_to_map in Hlook. split.
  - intros table. destruct (Hlook table) as [-> Hsome].
    destruct (tables !! table) as [cj|]; [|by rewrite lookup_empty].
    destruct (Hsome cj eq_refl) as [tr ->]. split; by eexists.
  - intros table Htable. destruct (Hlook table) as [-> _]. by rewrite Htable.
Qed.

End WriteShapes.

(** ** BatchGetItem *)

Lemma for_range_ext {X S : Type} (body1 body2 : S -> X -> error + S) (l : list X) (s : S) :
  (forall s x, body1 s x = body2 s x) ->
  for_range body1 l s = for_range body2 l s.
Proof.
  intros Hext. revert s. induction l as [|x l IH]; intros s; [done|].
  cbn [for_range]. rewrite Hext. destruct (body2 s x); [done|apply IH].
Qed.

(** A loop that stores one decoded value per key. *)
Lemma for_range_insert_lookup {A B : Type} (g : A -> error + B) (l : list (string * A))
    (results results' : gmap string B) :
  NoDup l.*1 ->
  for_range (fun results kv =>
               match g (snd kv) with
               | inl e => inl e
               | inr b => inr (<[fst kv := b]> results)
               end) l results = inr results' ->
  forall k,
    results' !! k
    = match (list_to_map l : gmap string A) !! k with
      | Some a => match g a with inr b => Some b | inl _ => None end
      | None => results !! k
      end.
Proof.
  revert results. induction l as [|[k0 a] l IH]; intros results Hnd Hrun k.
  - injection Hrun as <-. by rewrite list_to_map_nil, lookup_empty.
  - apply NoDup_cons in Hnd as [Hk Hnd]. cbn [for_range fst snd] in Hrun.
    destruct (g a) as [e|b] eqn:Hb; [discriminate|].
    rewrite (IH _ Hnd Hrun k), list_to_map_cons.
    destruct (decide (k0 = k)) as [->|Hne].
    + by rewrite (not_elem_of_list_to_map_1 l k Hk), !lookup_insert_eq, Hb.
    + by rewrite !lookup_insert_ne.
Qed.

Section BatchGet.
Context `{MapRange} `{Collaborators} `{!BatchCollaborators}.

Lemma parse_entries_acc jsonResponse (items : list (gmap string json)) acc :
  for_range (fun tableResult entry =>
               match entry with
               | JObject item =>
                   let unmarshalledItem := parseAttributes item in
                   inr (tableResult ++ [unmarshalledItem])
               | _ => inl (unexpected_response (FBytes jsonResponse))
               end)
            (JObject <$> items) acc
  = inr (acc ++ (parseAttributes <$> items)).
Proof.
  revert acc. induction items as [|item items IH]; intros acc.
  - cbn. by rewrite app_nil_r.
  - rewrite !fmap_cons. cbn [for_range]. rewrite IH. by rewrite <- app_assoc.
Qed.

Lemma parse_Responses_table_items jsonResponse items :
  parse_Responses_table jsonResponse (entries_json items) = inr (parseAttributes <$> items).
Proof. unfold parse_Responses_table, entries_json, parse_entries. apply parse_entries_acc. Qed.

Lemma parse_Responses_table_shape jsonResponse entries :
  (exists tableResult, parse_Responses_table jsonResponse entries = inr tableResult)
  <-> shaped_entries entries.
Proof.
  unfold parse_Responses_table, shaped_entries.
  destruct entries; try (split; [by intros [? ?]|done]).
  unfold parse_entries. apply for_range_succeeds_iff.
  - intros s x _ Hx. destruct x; try done. by eexists.
  - intros s x s' _ Hx. by destruct x.
Qed.

Lemma parse_Responses_table_error jsonResponse entries e :
  parse_Responses_table jsonResponse entries = inl e ->
  e = MalformedResponse (FBytes jsonResponse).
Proof.
  unfold parse_Responses_table, MalformedResponse.
  destruct entries; try (by intros [= <-]).
  unfold parse_entries.
  apply (for_range_error_kind _ (fun e => e = unexpected_response (FBytes jsonResponse))).
  intros s x e' _. by destruct x; intros [= <-].
Qed.

Lemma Execute_decoded b raw j :
  Server_queryServer (BatchGetItem_Server b) (target "BatchGetItem")
                     (AddRequestItems NewEmptyQuery (Keys b)) = inr raw ->
  NewJson raw = inr j ->
  snd (Execute b)
  = match json_field j "Responses" with
    | Some (JObject tables) => parse_Responses raw tables ∅
    | _ => inl (MalformedResponse (FBytes raw))
    end.
Proof.
  intros Hraw Hj. unfold Execute, call_Server_queryServer, M_bind, M_lift, MalformedResponse.
  rewrite Hraw. cbn [fst snd]. rewrite Hj. cbn [fst snd].
  unfold Json_Get, json_field. destruct j as [| | | | |m]; try done. cbn.
  by destruct (m !! "Responses") as [[]|].
Qed.

(** X20. Once a response has been received and decoded, if "Responses" binds
    each table to a sequence of items, [Execute] returns, for each of these
    tables and for no other, the attributes decoded from each item, in the
    order of the response. *)
Theorem Execute_decodes_in_order b raw j (responses : gmap string (list (gmap string json))) :
  Server_queryServer (BatchGetItem_Server b) (target "BatchGetItem")
                     (AddRequestItems NewEmptyQuery (Keys b)) = inr raw ->
  NewJson raw = inr j ->
  json_field j "Responses" = Some (JObject (entries_json <$> responses)) ->
  snd (Execute b)
  = inr ((fun items : list (gmap string json) => parseAttributes <$> items) <$> responses).
Proof.
  intros Hraw Hj Hfield. rewrite (Execute_decoded b raw j Hraw Hj), Hfield.
  unfold parse_Responses.
  assert (exists results,
            for_range (fun results kv =>
                         match parse_Responses_table raw (snd kv) with
                         | inl e => inl e
                         | inr tr => inr (<[fst kv := tr]> results)
                         end)
                      (range (entries_json <$> responses))
                      (∅ : gmap string (list (gmap string Attribute))) = inr results)
    as [results Hrun].
  { apply (for_range_succeeds_iff _ (fun kv => exists items, snd kv = entries_json items)).
    - intros s [k v] _ [items ->]. cbn [fst snd].
      rewrite parse_Responses_table_items. by eexists.
    - intros s [k v] s' Hin _. apply elem_of_range in Hin.
      rewrite lookup_fmap in Hin. destruct (responses !! k) as [items|]; [|done].
      injection Hin as <-. by exists items.
    - apply Forall_forall. intros [k v] Hin. apply elem_of_range in Hin.
      rewrite lookup_fmap in Hin. destruct (responses !! k) as [items|]; [|done].
      injection Hin as <-. by exists items. }
  etrans; [exact Hrun|]. f_equal. apply map_eq. intros table.
  rewrite (for_range_insert_lookup _ _ _ _ (range_NoDup _) Hrun table).
  rewrite range_list_to_map, !lookup_fmap.
  destruct (responses !! table) as [items|]; [|done].
  cbn [fmap option_fmap option_map]. by rewrite parse_Responses_table_items.
Qed.

(** X21. Once a response has been received and decoded, [Execute] succeeds
    exactly when "Responses" is a mapping from tables to sequences of
    mappings; in every other case the error is the malformed-response error
    that carries the raw response. *)
Theorem Execute_response_shape b raw j :
  Server_queryServer (BatchGetItem_Server b) (target "BatchGetItem")
                     (AddRequestItems NewEmptyQuery (Keys b)) = inr raw ->
  NewJson raw = inr j ->
  ((exists results, snd (Execute b) = inr results) <->
   (exists tables, json_field j "Responses" = Some (JObject tables) /\
                   shaped_Responses tables)) /\
  (forall e, snd (Execute b) = inl e -> e = MalformedResponse (FBytes raw)).
Proof.
  intros Hraw Hj. rewrite (Execute_decoded b raw j Hraw Hj).
  destruct (json_field j "Responses") as [[| | | | |tables]|].
  1-5,7: split; [split; [by intros [? ?]|by intros (? & ? & ?)]|]; by intros e [= <-].
  unfold parse_Responses. split.
  - assert ((exists results,
               for_range (fun results kv =>
                            match parse_Responses_table raw (snd kv) with
                            | inl e => inl e
                            | inr tr => inr (<[fst kv := tr]> results)
                            end) (range tables)
                         (∅ : gmap string (list (gmap string Attribute))) = inr results)
            <-> shaped_Responses tables) as ->.
    { unfold shaped_Responses. rewrite <- (Forall_range shaped_entries).
      apply for_range_succeeds_iff.
      - intros s [k v] _ Hok. cbn [fst snd] in *.
        apply (parse_Responses_table_shape raw) in Hok as [tr ->]. by eexists.
      - intros s [k v] s' _ Hrun. cbn [fst snd] in *.
        apply (parse_Responses_table_shape raw).
        destruct (parse_Responses_table raw v); [done|by eexists]. }
    split.
    + intros Hshape. by exists tables.
    + by intros (tables' & [= <-] & Hshape).
  - intros e. apply (for_range_error_kind _ (fun e => e = MalformedResponse (FBytes raw))).
    intros s [k v] e' _. cbn [fst snd].
    destruct (parse_Responses_table raw v) as [e0|tr] eqn:He; [|done].
    intros [= <-]. by apply parse_Responses_table_error in He.
Qed.

(** X22. [Execute] calls the server of the batch exactly once, with the
    target "BatchGetItem" and the query built from the keys of the batch; and
    in a batch the keys given last for a table replace the ones given before,
    the keys of the other tables being kept. *)
Theorem Execute_requests_last_keys b t keys keys' :
  fst (Execute b)
  = [{| call_target := target "BatchGetItem";
        call_query := AddRequestItems NewEmptyQuery (Keys b) |}] /\
  AddTable (BatchGetItems t keys) t keys' = BatchGetItems t keys' /\
  AddTable (AddTable b t keys) t keys' = AddTable b t keys' /\
  Keys (AddTable b t keys) !! t = Some keys /\
  (forall other, other <> t -> Keys (AddTable b t keys) !! other = Keys b !! other).
Proof.
  split; [|split; [|split; [|split]]].
  - unfold Execute, call_Server_queryServer, M_bind, M_lift.
    destruct (Server_queryServer _ _ _) as [e|raw]; [done|].
    cbn [fst snd]. destruct (NewJson raw) as [e|j]; [done|].
    cbn [fst snd]. by destruct (Json_Map (Json_Get j "Responses")).
  - unfold AddTable, BatchGetItems. cbn [Keys BatchGetItem_Server].
    by rewrite insert_insert_eq.
  - unfold AddTable. cbn [Keys BatchGetItem_Server]. by rewrite insert_insert_eq.
  - unfold AddTable. cbn [Keys]. by rewrite lookup_insert_eq.
  - intros other Hne. unfold AddTable. cbn [Keys]. by rewrite lookup_insert_ne.
Qed.

End BatchGet.

(** ** The parameters of the rds requests *)

Lemma lookup_set_string name value params key :
  set_string name value params !! key
  = if decide (key = name /\ value <> "") then Some value else params !! key.
Proof.
  unfold set_string. destruct (decide (value = "")) as [->|Hv].
  - rewrite decide_False; [done|]. by intros [_ ?].
  - destruct (decide (key = name)) as [->|Hne].
    + rewrite decide_True by done. by rewrite lookup_insert_eq.
    + rewrite decide_False by (by intros [? _]). by rewrite lookup_insert_ne.
Qed.

Lemma lookup_set_int name value params key :
  set_int name value params !! key
  = if decide (key = name /\ value <> 0) then Some (Itoa value) else params !! key.
Proof.
  unfold set_int. destruct (decide (value = 0)) as [->|Hv].
  - rewrite decide_False; [done|]. by intros [_ ?].
  - destruct (decide (key = name)) as [->|Hne].
    + rewrite decide_True by done. by rewrite lookup_insert_eq.
    + rewrite decide_False by (by intros [? _]). by rewrite lookup_insert_ne.
Qed.

Lemma lookup_set_string_ne name value params key :
  key <> name -> set_string name value params !! key = params !! key.
Proof. intros Hne. rewrite lookup_set_string. rewrite decide_False; [done|]. by intros [? _]. Qed.

Lemma lookup_set_int_ne name value params key :
  key <> name -> set_int name value params !! key = params !! key.
Proof. intros Hne. rewrite lookup_set_int. rewrite decide_False; [done|]. by intros [? _]. Qed.

(** A parameter whose name does not start with the prefix of a list is not
    touched by the members of the list. *)
Lemma set_members_lookup_other prefix i members params key :
  (forall suffix, key <> prefix +:+ suffix) ->
  set_members prefix i members params !! key = params !! key.
Proof.
  intros Hkey. revert i params. induction members as [|g members IH]; intros i params; [done|].
  cbn [set_members]. rewrite IH. destruct (decide (g = "")); [done|].
  rewrite lookup_insert_ne; [done|]. intros Heq. by eapply Hkey.
Qed.

Lemma member_name_index prefix i :
  Z.of_nat i < max_int ->
  prefix +:+ Itoa (int_add (Z.of_nat i) 1) = member_name prefix i.
Proof.
  intros Hi. unfold member_name, int_add. rewrite wrap_int_id; [done|].
  unfold in_int, min_int, max_int, int_bits in *. lia.
Qed.

Lemma member_name_inj prefix n m : member_name prefix n = member_name prefix m -> n = m.
Proof.
  unfold member_name, Itoa. intros Heq.
  apply String.app_inj in Heq. apply pretty_Z_inj in Heq. lia.
Qed.

Lemma set_members_lookup_before prefix i members params m :
  (m < i)%nat ->
  Z.of_nat (i + length members) <= max_int ->
  set_members prefix i members params !! member_name prefix m
  = params !! member_name prefix m.
Proof.
  revert i params. induction members as [|g members IH]; intros i params Hm Hlen; [done|].
  cbn [set_members length] in *. rewrite IH by lia.
  destruct (decide (g = "")); [done|].
  rewrite member_name_index by lia.
  rewrite lookup_insert_ne; [done|]. intros Heq%member_name_inj. lia.
Qed.

(** Member [n] of the list is sent under its own name unless it is empty. *)
Lemma set_members_lookup prefix i members params n g :
  Z.of_nat (i + length members) <= max_int ->
  members !! n = Some g ->
  set_members prefix i members params !! member_name prefix (i + n)
  = if decide (g = "") then params !! member_name prefix (i + n) else Some g.
Proof.
  revert i n params. induction members as [|g0 members IH]; intros i n params Hlen Hn;
    [done|].
  cbn [set_members length] in *. destruct n as [|n].
  - injection Hn as ->. rewrite Nat.add_0_r.
    rewrite set_members_lookup_before by lia.
    destruct (decide (g = "")); [done|].
    rewrite member_name_index by lia. by rewrite lookup_insert_eq.
  - cbn in Hn. replace (i + S n)%nat with (S i + n)%nat by lia.
    rewrite (IH (S i) n _ ltac:(lia) Hn).
    destruct (decide (g = "")); [|done].
    destruct (decide (g0 = "")); [done|].
    rewrite member_name_index by lia.
    rewrite lookup_insert_ne; [done|]. intros Heq%member_name_inj. lia.
Qed.

(** Two parameter names are different, by their first characters. *)
Ltac distinct_names :=
  unfold member_name; intros;
  let Heq := fresh "Heq" in intros Heq; simpl in Heq; discriminate Heq.

(** Looking a parameter up through the assignments that do not concern it. *)
Ltac through_params :=
  repeat first
    [ rewrite lookup_insert_ne by distinct_names
    | rewrite lookup_set_string_ne by distinct_names
    | rewrite lookup_set_int_ne by distinct_names
    | rewrite set_members_lookup_other by distinct_names ].

Section RDSRequests.
Context `{Service}.

Lemma query_calls {R : Type} method path params (resp : R) :
  fst (query method path params resp)
  = [{| call_method := method; call_path := path;
        call_params := <["Version" := ApiVersion]> params |}].
Proof.
  unfold query. destruct (Service_Query _ _ _) as [err|r]; [done|].
  by destruct (negb (StatusCode r =? 200)).
Qed.

Lemma CreateDBInstance_calls options :
  fst (CreateDBInstance options)
  = [{| call_method := "POST"; call_path := "/";
        call_params := <["Version" := ApiVersion]> (CreateDBInstance_params options) |}].
Proof.
  unfold CreateDBInstance. rewrite <- query_calls with (resp := new_CreateDBInstanceResponse).
  by destruct (query _ _ _ _) as [calls [resp [err|]]].
Qed.

Lemma DeleteDBInstance_calls id final skip :
  fst (DeleteDBInstance id final skip)
  = [{| call_method := "POST"; call_path := "/";
        call_params := <["Version" := ApiVersion]> (DeleteDBInstance_params id final skip) |}].
Proof.
  unfold DeleteDBInstance. rewrite <- query_calls with (resp := new_DeleteDBInstanceResponse).
  by destruct (query _ _ _ _) as [calls [resp [err|]]].
Qed.

(** X23. [CreateDBInstance] sends member [n] (counted from 0) of the
    security groups, and of the VPC security group ids, under the name
    "....member.<n+1>" when it is not empty, and sends nothing under that name
    when it is empty: the numbering follows the position in the list and is
    not closed up over the empty members. *)
Theorem CreateDBInstance_members options n g :
  Z.of_nat (length (DBSecurityGroups options)) <= max_int ->
  Z.of_nat (length (VpcSecurityGroupIds options)) <= max_int ->
  exists params,
    fst (CreateDBInstance options)
    = [{| call_method := "POST"; call_path := "/"; call_params := params |}] /\
    (DBSecurityGroups options !! n = Some g ->
     params !! member_name "DBSecurityGroups.member." n
     = if decide (g = "") then None else Some g) /\
    (VpcSecurityGroupIds options !! n = Some g ->
     params !! member_name "VpcSecurityGroupIds.member." n
     = if decide (g = "") then None else Some g).
Proof.
  intros Hdb Hvpc. eexists. split; [apply CreateDBInstance_calls|].
  unfold CreateDBInstance_params, MakeParams. cbv zeta. split; intros Hn.
  - through_params.
    rewrite (set_members_lookup _ 0 _ _ n g) by done.
    destruct (decide (g = "")); [|done].
    through_params. apply lookup_singleton_ne. distinct_names.
  - rewrite lookup_insert_ne by distinct_names.
    rewrite (set_members_lookup _ 0 _ _ n g) by done.
    destruct (decide (g = "")); [|done].
    through_params. apply lookup_singleton_ne. distinct_names.
Qed.

(** X24. [CreateDBInstance] always sends the action, the API version and
    the three boolean options (as "true" or "false"); it sends a string
    option exactly when it is not empty and an integer option exactly when it
    is not 0, in decimal. *)
Theorem CreateDBInstance_options options :
  exists params,
    fst (CreateDBInstance options)
    = [{| call_method := "POST"; call_path := "/"; call_params := params |}] /\
    params !! "Action" = Some "CreateDBInstance" /\
    params !! "Version" = Some ApiVersion /\
    (forall name value, (name, value) ∈ bool_options options ->
       params !! name = Some (FormatBool value)) /\
    (forall name value, (name, value) ∈ string_options options ->
       params !! name = if decide (value = "") then None else Some value) /\
    (forall name value, (name, value) ∈ int_options options ->
       params !! name = if decide (value = 0) then None else Some (Itoa value)).
Proof.
  eexists. split; [apply CreateDBInstance_calls|].
  unfold CreateDBInstance_params, MakeParams. cbv zeta.
  split; [by through_params|]. split; [by rewrite lookup_insert_eq|].
  split; [|split].
  - intros name value Hin. unfold bool_options in Hin.
    rewrite !elem_of_cons, elem_of_nil in Hin.
    destruct Hin as [[= -> ->]|[[= -> ->]|[[= -> ->]|[]]]];
      through_params; by rewrite lookup_insert_eq.
  - intros name value Hin. unfold string_options in Hin.
    rewrite !elem_of_cons, elem_of_nil in Hin.
    repeat (destruct Hin as [[= -> ->]|Hin]); [..|done].
    all: through_params; rewrite lookup_set_string.
    all: destruct (decide (_ = "")) as [Hv|Hv];
      [rewrite decide_False by (by intros [_ ?]); through_params;
       apply lookup_singleton_ne; distinct_names
      |by rewrite decide_True].
  - intros name value Hin. unfold int_options in Hin.
    rewrite !elem_of_cons, elem_of_nil in Hin.
    repeat (destruct Hin as [[= -> ->]|Hin]); [..|done].
    all: through_params; rewrite lookup_set_int.
    all: destruct (decide (_ = 0)) as [Hv|Hv];
      [rewrite decide_False by (by intros [_ ?]); through_params;
       apply lookup_singleton_ne; distinct_names
      |by rewrite decide_True].
Qed.

End RDSRequests.

Section RDSOutcomes.
Context `{Service}.

(** X25. [DeleteDBInstance] makes exactly one call, a POST to "/", whose
    parameters are the action, the API version, the instance identifier (even
    when it is empty), SkipFinalSnapshot as "true" or "false", and the final
    snapshot identifier exactly when it is not empty; nothing else is sent. *)
Theorem DeleteDBInstance_request id final skip :
  exists params,
    fst (DeleteDBInstance id final skip)
    = [{| call_method := "POST"; call_path := "/"; call_params := params |}] /\
    params !! "Action" = Some "DeleteDBInstance" /\
    params !! "Version" = Some ApiVersion /\
    params !! "DBInstanceIdentifier" = Some id /\
    params !! "SkipFinalSnapshot" = Some (FormatBool skip) /\
    params !! "FinalDBSnapshotIdentifier" = (if decide (final = "") then None else Some final) /\
    (forall name, is_Some (params !! name) ->
       name ∈ ["Action"; "Version"; "DBInstanceIdentifier"; "SkipFinalSnapshot";
               "FinalDBSnapshotIdentifier"]).
Proof.
  eexists. split; [apply DeleteDBInstance_calls|].
  unfold DeleteDBInstance_params, MakeParams. cbv zeta.
  split; [by through_params|]. split; [by rewrite lookup_insert_eq|].
  split; [through_params; by rewrite lookup_insert_eq|].
  split; [through_params; by rewrite lookup_insert_eq|].
  split.
  - through_params. rewrite lookup_set_string.
    destruct (decide (final = "")) as [Hv|Hv].
    + rewrite decide_False by (by intros [_ ?]). by through_params.
    + by rewrite decide_True.
  - intros name Hsome.
    destruct (decide (name ∈ ["Action"; "Version"; "DBInstanceIdentifier";
                              "SkipFinalSnapshot"; "FinalDBSnapshotIdentifier"]))
      as [|Hnot]; [done|].
    rewrite !not_elem_of_cons in Hnot. destruct Hnot as (? & ? & ? & ? & ? & _).
    rewrite lookup_insert_ne, lookup_insert_ne, lookup_set_string_ne,
      lookup_insert_ne, lookup_singleton_ne in Hsome by done.
    by destruct Hsome.
Qed.

(** X26. [DescribeDBInstances] makes exactly one call, a POST to "/"; it
    sends the instance identifier and the marker exactly when they are not
    empty, and MaxRecords exactly when it is not 0, in decimal (a negative
    value is sent with its sign). *)
Theorem DescribeDBInstances_request id maxRecords marker :
  exists params,
    fst (DescribeDBInstances id maxRecords marker)
    = [{| call_method := "POST"; call_path := "/"; call_params := params |}] /\
    params !! "Action" = Some "DescribeDBInstances" /\
    params !! "Version" = Some ApiVersion /\
    params !! "DBInstanceIdentifier" = (if decide (id = "") then None else Some id) /\
    params !! "Marker" = (if decide (marker = "") then None else Some marker) /\
    params !! "MaxRecords"
    = (if decide (maxRecords = 0) then None else Some (pretty maxRecords)) /\
    (maxRecords < 0 -> params !! "MaxRecords" = Some ("-" +:+ pretty (Z.to_N (- maxRecords)))).
Proof.
  eexists. split; [apply query_calls|].
  unfold DescribeDBInstances_params, MakeParams. cbv zeta.
  split; [by through_params|]. split; [by rewrite lookup_insert_eq|].
  split; [|split; [|split]].
  - through_params. rewrite lookup_set_string.
    destruct (decide (id = "")).
    + rewrite decide_False by (by intros [_ ?]). by through_params.
    + by rewrite decide_True.
  - through_params. rewrite lookup_set_string.
    destruct (decide (marker = "")).
    + rewrite decide_False by (by intros [_ ?]). by through_params.
    + by rewrite decide_True.
  - through_params. rewrite lookup_set_int.
    destruct (decide (maxRecords = 0)).
    + rewrite decide_False by (by intros [_ ?]). by through_params.
    + by rewrite decide_True.
  - intros Hneg. through_params. rewrite lookup_set_int.
    rewrite decide_True by (split; [done|lia]).
    destruct maxRecords as [|p|p]; [lia|lia|]. reflexivity.
Qed.

(** X27. None of the three methods decodes the body of a response whose
    status is not 200: the error is the one [BuildError] makes of the
    response.  An error of the transport is passed on as it is.  In both
    cases [DescribeDBInstances] returns the fresh response structure together
    with the error, while [CreateDBInstance] and [DeleteDBInstance] return no
    response. *)
Theorem rds_errors id maxRecords marker options final skip :
  (forall err,
     (Service_Query "POST" "/"
        (<["Version" := ApiVersion]> (DescribeDBInstances_params id maxRecords marker))
      = inl err ->
      snd (DescribeDBInstances id maxRecords marker)
      = (new_DescribeDBInstancesResponse, Some err)) /\
     (Service_Query "POST" "/"
        (<["Version" := ApiVersion]> (CreateDBInstance_params options)) = inl err ->
      snd (CreateDBInstance options) = inl err) /\
     (Service_Query "POST" "/"
        (<["Version" := ApiVersion]> (DeleteDBInstance_params id final skip)) = inl err ->
      snd (DeleteDBInstance id final skip) = inl err)) /\
  (forall r, StatusCode r <> 200 ->
     (Service_Query "POST" "/"
        (<["Version" := ApiVersion]> (DescribeDBInstances_params id maxRecords marker))
      = inr r ->
      snd (DescribeDBInstances id maxRecords marker)
      = (new_DescribeDBInstancesResponse, Some (BuildError r))) /\
     (Service_Query "POST" "/"
        (<["Version" := ApiVersion]> (CreateDBInstance_params options)) = inr r ->
      snd (CreateDBInstance options) = inl (BuildError r)) /\
     (Service_Query "POST" "/"
        (<["Version" := ApiVersion]> (DeleteDBInstance_params id final skip)) = inr r ->
      snd (DeleteDBInstance id final skip) = inl (BuildError r))).
Proof.
  unfold DescribeDBInstances, CreateDBInstance, DeleteDBInstance, query. cbv zeta.
  split.
  - intros err. repeat split; by intros ->.
  - intros r Hr.
    assert (negb (StatusCode r =? 200) = true) as Hstatus
      by (destruct (Z.eqb_spec (StatusCode r) 200); [done|reflexivity]).
    repeat split; intros ->; by rewrite Hstatus.
Qed.

End RDSOutcomes.

(** ** Instances of the further properties *)

Lemma GetSize_AddAttribute_witness :
  value_size (AddAttribute tagged_item id_attribute) <= max_int /\
  GetSize (AddAttribute tagged_item id_attribute) = GetSize tagged_item + len (Value id_attribute).
Proof.
  assert (value_size (AddAttribute tagged_item id_attribute) <= max_int) as Hfit
    by (apply Z.leb_le; evaluated).
  split; [exact Hfit|]. exact (proj1 (GetSize_AddAttribute tagged_item id_attribute Hfit)).
Defined.

Lemma parseAttributes_well_formed_witness :
  @parseAttributes range_map_to_list sizes_wire !! "sizes"
  = Some {| Type_ := TYPE_NUMBER_SET; Name := "sizes"; Value := "";
            SetValues := ["3"; ""; "1"] |} /\
  unused_field_empty {| Type_ := TYPE_NUMBER_SET; Name := "sizes"; Value := "";
                        SetValues := ["3"; ""; "1"] |}.
Proof.
  assert (@parseAttributes range_map_to_list sizes_wire !! "sizes"
          = Some {| Type_ := TYPE_NUMBER_SET; Name := "sizes"; Value := "";
                    SetValues := ["3"; ""; "1"] |}) as Hlook by evaluated.
  split; [exact Hlook|].
  exact (proj2 (proj2 (proj2 (@parseAttributes_well_formed range_map_to_list
                                sizes_wire "sizes" _ Hlook)))).
Defined.

Lemma GetItem_Item_field_witness :
  snd (@GetItem range_map_to_list (answering (JObject {[ "Item" := JNull ]})) tt tt)
  = inl (@MalformedResponse (answering (JObject {[ "Item" := JNull ]})) (FBytes "response")).
Proof.
  refine (proj2 (@GetItem_Item_field range_map_to_list
                   (answering (JObject {[ "Item" := JNull ]}))
                   tt tt "response" (JObject {[ "Item" := JNull ]}) _ _) JNull _ _).
  - reflexivity.
  - reflexivity.
  - evaluated.
  - discriminate.
Defined.

Lemma BatchWriteItem_response_shape_witness :
  exists e,
    snd (@BatchWriteItem range_map_to_list
           (answering (JObject {[ "UnprocessedItems" := JObject {[ "T" := JString "none" ]} ]}))
           tt (request_of [string_item 1])) = inl e /\
    @is_MalformedResponse
      (answering (JObject {[ "UnprocessedItems" := JObject {[ "T" := JString "none" ]} ]})) e.
Proof.
  eexists. split; [evaluated|].
  refine (proj2 (@BatchWriteItem_response_shape range_map_to_list
            (answering (JObject {[ "UnprocessedItems" := JObject {[ "T" := JString "none" ]} ]}))
            tt (request_of [string_item 1]) "response"
            (JObject {[ "UnprocessedItems" := JObject {[ "T" := JString "none" ]} ]}) _ _ _)
            _ _).
  - evaluated.
  - reflexivity.
  - reflexivity.
  - evaluated.
Defined.

Lemma BatchWriteItem_result_tables_witness :
  exists results,
    snd (@BatchWriteItem range_map_to_list
           (answering (JObject {[ "UnprocessedItems" := JObject {[ "T" := JArray [] ]} ]}))
           tt (request_of [string_item 1])) = inr results /\
    results !! "T" = Some ∅.
Proof.
  eexists. split; [evaluated|].
  refine (proj2 (@BatchWriteItem_result_tables range_map_to_list
            (answering (JObject {[ "UnprocessedItems" := JObject {[ "T" := JArray [] ]} ]}))
            tt (request_of [string_item 1]) "response"
            (JObject {[ "UnprocessedItems" := JObject {[ "T" := JArray [] ]} ]})
            {[ "T" := JArray [] ]} _ _ _ _ _ _) "T" _).
  - evaluated.
  - reflexivity.
  - reflexivity.
  - evaluated.
  - evaluated.
  - evaluated.
Defined.

Lemma Execute_decodes_in_order_witness :
  snd (@Execute range_map_to_list
         (answering (JObject {[ "Responses" := JObject (entries_json <$> two_responses) ]}))
         (responding (JObject {[ "Responses" := JObject (entries_json <$> two_responses) ]}))
         (@BatchGetItems _ (responding _) tt [tt]))
  = inr ((fun items : list (gmap string json) =>
            @parseAttributes range_map_to_list <$> items) <$> two_responses).
Proof.
  apply (@Execute_decodes_in_order range_map_to_list _
           (responding (JObject {[ "Responses" := JObject (entries_json <$> two_responses) ]}))
           (@BatchGetItems _ (responding _) tt [tt]) "response"
           (JObject {[ "Responses" := JObject (entries_json <$> two_responses) ]})).
  - reflexivity.
  - reflexivity.
  - evaluated.
Defined.

Lemma Execute_response_shape_witness :
  snd (@Execute range_map_to_list
         (answering (JObject {[ "Responses" := JString "none" ]}))
         (responding (JObject {[ "Responses" := JString "none" ]}))
         (@BatchGetItems _ (responding _) tt [tt]))
  = inl (@MalformedResponse (answering (JObject {[ "Responses" := JString "none" ]}))
           (FBytes "response")).
Proof.
  assert (snd (@Execute range_map_to_list
                 (answering (JObject {[ "Responses" := JString "none" ]}))
                 (responding (JObject {[ "Responses" := JString "none" ]}))
                 (@BatchGetItems _ (responding _) tt [tt]))
          = inl (errors_New "Unexpected response response")) as Hrun by evaluated.
  refine (eq_trans Hrun (f_equal inl
    (proj2 (@Execute_response_shape range_map_to_list _
              (responding (JObject {[ "Responses" := JString "none" ]}))
              (@BatchGetItems _ (responding _) tt [tt]) "response"
              (JObject {[ "Responses" := JString "none" ]}) _ _) _ Hrun))).
  - reflexivity.
  - reflexivity.
Defined.

Lemma CreateDBInstance_members_witness :
  exists params,
    fst (@CreateDBInstance (canned_service (inl ErrNotFound)) sample_options)
    = [{| call_method := "POST"; call_path := "/"; call_params := params |}] /\
    params !! "DBSecurityGroups.member.1" = Some "sg-a" /\
    params !! "DBSecurityGroups.member.2" = None /\
    params !! "DBSecurityGroups.member.3" = Some "sg-c".
Proof.
  assert (Z.of_nat (length (DBSecurityGroups sample_options)) <= max_int) as Hdb
    by (apply Z.leb_le; evaluated).
  assert (Z.of_nat (length (VpcSecurityGroupIds sample_options)) <= max_int) as Hvpc
    by (apply Z.leb_le; evaluated).
  destruct (@CreateDBInstance_members (canned_service (inl ErrNotFound))
              sample_options 0 "sg-a" Hdb Hvpc) as (params & Hcall & Ha & _).
  destruct (@CreateDBInstance_members (canned_service (inl ErrNotFound))
              sample_options 1 "" Hdb Hvpc) as (params' & Hcall' & Hb & _).
  destruct (@CreateDBInstance_members (canned_service (inl ErrNotFound))
              sample_options 2 "sg-c" Hdb Hvpc) as (params'' & Hcall'' & Hc & _).
  rewrite Hcall in Hcall', Hcall''.
  injection Hcall' as <-. injection Hcall'' as <-.
  exists params. split; [exact Hcall|].
  split; [exact (Ha eq_refl)|]. split; [exact (Hb eq_refl)|exact (Hc eq_refl)].
Defined.
